(** * Modbus register decoding: a shallow embedding of [modbus_conversion.c]

    The C library turns raw 16-bit Modbus registers into typed values,
    undoing the byte and word orders devices use and applying a scaling
    factor.  Every conversion function of [src/modbus_conversion.c], with
    the helpers it calls, is transcribed below as a Rocq function of the
    same name; the theorems at the end relate these functions to the prose
    specification.

    Conventions of the embedding.
    - A [uintN_t] is a [Z] in [0, 2^N); an [intN_t] a [Z] in
      [-2^(N-1), 2^(N-1)).  Conversions that C performs implicitly are
      written out ([uint], [sint]).
    - A C array is a [list Z]; [a !! i] reads it and [store] writes it.
      An access outside the array has no defined behaviour in C: the
      computation then has no result ([None]).
    - [double] and [float] are IEEE-754 binary64 and binary32 numbers,
      represented by [spec_float] with the operations of the Standard
      Library's [SpecFloat] (round to nearest, ties to even).
    - A function that returns a code and stores through its [result]
      pointer yields an [outcome]: the code, and the value stored (if
      any store happened).

    The file has three parts: the embedding of the C code, the vocabulary
    of the specification, and the lemmas and theorems. *)

From Stdlib Require Import ZArith Bool Lia.
From Stdlib Require Import Floats.SpecFloat.
From Stdlib Require Strings.String.
From stdpp Require Import base option list.

Local Open Scope Z_scope.

(** * The embedding of the C code *)

(** ** Machine integers *)

(** Conversion of an integer to [uintN_t]: reduction modulo [2^N]. *)
Definition uint (N : Z) (z : Z) : Z := z mod 2^N.
Definition uint8 := uint 8.
Definition uint16 := uint 16.
Definition uint32 := uint 32.
Definition uint64 := uint 64.

(** Conversion of an integer to [intN_t]: the value of the same residue
    modulo [2^N] in the signed range (two's complement), as in
    [(int32_t)u32_val]. *)
Definition sint (N : Z) (z : Z) : Z :=
  let u := z mod 2^N in if u <? 2^(N-1) then u else u - 2^N.
Definition int16 := sint 16.
Definition int32 := sint 32.
Definition int64 := sint 64.

(** Range predicates for values read from the caller's memory. *)
Definition is_u16 (z : Z) : Prop := 0 <= z < 2^16.
Definition is_u8 (z : Z) : Prop := 0 <= z < 2^8.

(** ** Arrays *)

(** [a[i] = v]; writing outside the array is not defined. *)
Definition store (i : nat) (v : Z) (a : list Z) : option (list Z) :=
  if (i <? length a)%nat then Some (<[i := v]> a) else None.

(** A local array of [n] elements whose content is not yet meaningful. *)
Definition local_array (n : nat) : list Z := replicate n 0.

(** ** Floating point *)

Definition double : Type := spec_float.
Definition float : Type := spec_float.

(** Integer to [double] (exact below [2^53], rounded to nearest above). *)
Definition double_of_int (z : Z) : double := binary_normalize 53 1024 z 0 false.

(** Product of two [double]s. *)
Definition double_mul (x y : double) : double := SFmul 53 1024 x y.

(** The integral part of a [double] (rounding toward zero); infinities
    and NaN have none. *)
Definition double_trunc (d : double) : option Z :=
  match d with
  | S754_zero _ => Some 0
  | S754_finite s m e => Some (cond_Zopp s (Z.shiftl (Zpos m) e))
  | S754_infinity _ | S754_nan => None
  end.

(** The cast [(T)d] of a [double] to an integer type with values [lo..hi]:
    the integral part of [d] when the type can represent it.  C leaves the
    cast of any other value undefined (C11 6.3.1.4), so it has no result
    here. *)
Definition int_of_double (lo hi : Z) (d : double) : option Z :=
  t ← double_trunc d;
  if (lo <=? t) && (t <=? hi) then Some t else None.

Definition int8_of_double := int_of_double (-2^7) (2^7 - 1).
Definition uint8_of_double := int_of_double 0 (2^8 - 1).
Definition int16_of_double := int_of_double (-2^15) (2^15 - 1).
Definition uint16_of_double := int_of_double 0 (2^16 - 1).
Definition int32_of_double := int_of_double (-2^31) (2^31 - 1).
Definition uint32_of_double := int_of_double 0 (2^32 - 1).
Definition int64_of_double := int_of_double (-2^63) (2^63 - 1).
Definition uint64_of_double := int_of_double 0 (2^64 - 1).

(** Promotion of a [float] operand to [double] (exact), and conversion of a
    [double] to [float] on assignment (rounded to nearest). *)
Definition double_of_float (f : float) : double :=
  match f with
  | S754_finite s m e => binary_round 53 1024 s m e
  | _ => f
  end.

Definition float_of_double (d : double) : float :=
  match d with
  | S754_finite s m e => binary_round 24 128 s m e
  | _ => d
  end.

(** The IEEE-754 interchange encoding with [mw] fraction bits and [ew]
    exponent bits: the number whose object representation is the unsigned
    integer [x].  This is what [memcpy] from a [uint32_t] into a [float]
    (or from a [uint64_t] into a [double]) produces. *)
Definition ieee_of_bits (mw ew : Z) (x : Z) : spec_float :=
  let frac := x mod 2^mw in
  let expo := (x / 2^mw) mod 2^ew in
  let sign := Z.odd (x / 2^(mw + ew)) in
  if expo =? 0 then
    match frac with
    | Zpos m => S754_finite sign m (2 - 2^(ew-1) - mw)
    | _ => S754_zero sign
    end
  else if expo =? 2^ew - 1 then
    if frac =? 0 then S754_infinity sign else S754_nan
  else
    match frac + 2^mw with
    | Zpos m => S754_finite sign m (expo - 2^(ew-1) + 1 - mw)
    | _ => S754_nan
    end.

Definition float_of_bits (u32_val : Z) : float := ieee_of_bits 23 8 u32_val.
Definition double_of_bits (u64_val : Z) : double := ieee_of_bits 52 11 u64_val.

(** The object representation of a number, the inverse of [ieee_of_bits] on
    every pattern but the NaNs (all NaNs are one value here; the quiet NaN
    with an empty payload stands for them).  The decoders never need it; the
    round-trip theorem uses it to say that two [float]s are bit-identical. *)
Definition bits_of_ieee (mw ew : Z) (f : spec_float) : Z :=
  let sgn (s : bool) := if s then 2^(mw + ew) else 0 in
  match f with
  | S754_zero s => sgn s
  | S754_infinity s => sgn s + (2^ew - 1) * 2^mw
  | S754_nan => (2^ew - 1) * 2^mw + 2^(mw - 1)
  | S754_finite s m e =>
      if Zpos m <? 2^mw then sgn s + Zpos m
      else sgn s + (e + 2^(ew-1) - 1 + mw) * 2^mw + (Zpos m - 2^mw)
  end.

Definition bits_of_float (f : float) : Z := bits_of_ieee 23 8 f.

(** ** Return codes and data types ([modbus_conversion.h]) *)

Definition MODBUS_CONV_OK : Z := 0.
Definition MODBUS_CONV_ERR_NULL_PTR : Z := -1.
Definition MODBUS_CONV_ERR_INVALID_TYPE : Z := -2.
Definition MODBUS_CONV_ERR_INVALID_BIT : Z := -3.
Definition MODBUS_CONV_ERR_INSUFF_REGS : Z := -4.
Definition MODBUS_CONV_ERR_UNKNOWN : Z := -5.

(** [modbus_data_type_t]: a C enumeration, that is an integer; the
    enumerators number from 0 in the order of declaration.  The decoders
    compare tags with [>=] and [<=], and a caller can pass any integer. *)
Definition MODBUS_BIT_BOOLEAN : Z := 0.
Definition MODBUS_INT8_SIGNED : Z := 1.
Definition MODBUS_INT8_UNSIGNED : Z := 2.
Definition MODBUS_INT16_SIGNED_AB : Z := 3.
Definition MODBUS_INT16_SIGNED_BA : Z := 4.
Definition MODBUS_INT16_UNSIGNED_AB : Z := 5.
Definition MODBUS_INT16_UNSIGNED_BA : Z := 6.
Definition MODBUS_INT32_SIGNED_ABCD : Z := 7.
Definition MODBUS_INT32_SIGNED_DCBA : Z := 8.
Definition MODBUS_INT32_SIGNED_BADC : Z := 9.
Definition MODBUS_INT32_SIGNED_CDAB : Z := 10.
Definition MODBUS_INT32_UNSIGNED_ABCD : Z := 11.
Definition MODBUS_INT32_UNSIGNED_DCBA : Z := 12.
Definition MODBUS_INT32_UNSIGNED_BADC : Z := 13.
Definition MODBUS_INT32_UNSIGNED_CDAB : Z := 14.
Definition MODBUS_INT64_SIGNED_ABCDEFGH : Z := 15.
Definition MODBUS_INT64_SIGNED_HGFEDCBA : Z := 16.
Definition MODBUS_INT64_SIGNED_BADCFEHG : Z := 17.
Definition MODBUS_INT64_SIGNED_CDABGHEF : Z := 18.
Definition MODBUS_INT64_SIGNED_DCBAHGFE : Z := 19.
Definition MODBUS_INT64_SIGNED_GHEFCDAB : Z := 20.
Definition MODBUS_INT64_SIGNED_FEHGBADC : Z := 21.
Definition MODBUS_INT64_SIGNED_EFGHABCD : Z := 22.
Definition MODBUS_INT64_UNSIGNED_ABCDEFGH : Z := 23.
Definition MODBUS_INT64_UNSIGNED_HGFEDCBA : Z := 24.
Definition MODBUS_INT64_UNSIGNED_BADCFEHG : Z := 25.
Definition MODBUS_INT64_UNSIGNED_CDABGHEF : Z := 26.
Definition MODBUS_INT64_UNSIGNED_DCBAHGFE : Z := 27.
Definition MODBUS_INT64_UNSIGNED_GHEFCDAB : Z := 28.
Definition MODBUS_INT64_UNSIGNED_FEHGBADC : Z := 29.
Definition MODBUS_INT64_UNSIGNED_EFGHABCD : Z := 30.
Definition MODBUS_IEEE_FLOAT32_ABCD : Z := 31.
Definition MODBUS_IEEE_FLOAT32_CDAB : Z := 32.
Definition MODBUS_IEEE_FLOAT32_DCBA : Z := 33.
Definition MODBUS_IEEE_FLOAT32_BADC : Z := 34.
Definition MODBUS_IEEE_FLOAT64_ABCDEFGH : Z := 35.
Definition MODBUS_IEEE_FLOAT64_HGFEDCBA : Z := 36.
Definition MODBUS_IEEE_FLOAT64_BADCFEHG : Z := 37.
Definition MODBUS_IEEE_FLOAT64_CDABGHEF : Z := 38.
Definition MODBUS_IEEE_FLOAT64_DCBAHGFE : Z := 39.
Definition MODBUS_IEEE_FLOAT64_GHEFCDAB : Z := 40.
Definition MODBUS_IEEE_FLOAT64_FEHGBADC : Z := 41.
Definition MODBUS_IEEE_FLOAT64_EFGHABCD : Z := 42.

(** [modbus_value_t]: the union of results.  A value of this type records
    which member was stored last, and what. *)
Inductive modbus_value_t : Type :=
  | bool_val (b : bool)
  | i8 (v : Z)
  | u8 (v : Z)
  | i16 (v : Z)
  | u16 (v : Z)
  | i32 (v : Z)
  | u32 (v : Z)
  | i64 (v : Z)
  | u64 (v : Z)
  | f32 (v : float)
  | f64 (v : double).

(** ** Calls with an out-parameter *)

(** A pointer argument the callee stores through: null, or the address of
    an object of the caller. *)
Inductive out_ptr : Type := NULL | Addr.

(** What a call did: the [int] it returned and the value it stored through
    [result], [None] when it stored nothing. *)
Record outcome (A : Type) : Type := Returns { code : Z; stored : option A }.
Arguments Returns {A} code stored.
Arguments code {A} o.
Arguments stored {A} o.

(** The caller's object after the call, given its content before. *)
Definition slot_after {A : Type} (before : A) (o : outcome A) : A :=
  default before (stored o).

(** [return c;]: the call ends with code [c]; nothing is stored from here
    on. *)
Definition return_ {A : Type} (c : Z) : option (outcome A) :=
  Some (Returns c None).

(** [*result = v;] followed by the rest of the function body: [v] is what
    the call stored unless the rest stores again. *)
Definition assign {A : Type} (v : A) (rest : option (outcome A))
    : option (outcome A) :=
  o ← rest; Some (Returns (code o) (Some (default v (stored o)))).

(** A call made with the address of a member of the union, as in
    [&result->i8]: what the callee stores is stored in that member. *)
Definition member {A : Type} (m : A -> modbus_value_t)
    (call : option (outcome A)) : option (outcome modbus_value_t) :=
  o ← call; Some (Returns (code o) (m <$> stored o)).

(** ** Helper functions *)

(** [swap_bytes_16], lines 536-539; the [int] expression is converted to
    [uint16_t] on return. *)
Definition swap_bytes_16 (value : Z) : Z :=
  uint16 (Z.lor (Z.shiftl (Z.land value 255) 8) (Z.land (Z.shiftr value 8) 255)).

(** [regs_to_bytes], lines 517-524: the loop with [n] iterations left and
    index [i]. *)
Fixpoint regs_to_bytes_loop (regs : list Z) (n i : nat) (bytes : list Z)
    : option (list Z) :=
  match n with
  | O => Some bytes
  | S n' =>
      r ← regs !! i;
      bytes ← store (i * 2) (Z.land (Z.shiftr r 8) 255) bytes;
      bytes ← store (i * 2 + 1) (Z.land r 255) bytes;
      regs_to_bytes_loop regs n' (S i) bytes
  end.

Definition regs_to_bytes (regs : list Z) (count : nat) (bytes : list Z)
    : option (list Z) :=
  regs_to_bytes_loop regs count 0 bytes.

(** [bytes_reverse], lines 526-534: the in-place swap loop. *)
Fixpoint bytes_reverse_loop (len : nat) (n i : nat) (bytes : list Z)
    : option (list Z) :=
  match n with
  | O => Some bytes
  | S n' =>
      temp ← bytes !! i;
      other ← bytes !! (len - 1 - i)%nat;
      bytes ← store i other bytes;
      bytes ← store (len - 1 - i) temp bytes;
      bytes_reverse_loop len n' (S i) bytes
  end.

Definition bytes_reverse (bytes : list Z) (len : nat) : option (list Z) :=
  bytes_reverse_loop len (len / 2) 0 bytes.

(** The loops [for (i = 0; i < 4; i++) regs[i] = swap_bytes_16(registers[src i])]
    of the 64-bit decoders, with [src i = i] (BADCFEHG) or [src i = 3 - i]
    (DCBAHGFE). *)
Fixpoint swap_regs_loop (src : nat -> nat) (registers : list Z) (n i : nat)
    (regs : list Z) : option (list Z) :=
  match n with
  | O => Some regs
  | S n' =>
      r ← registers !! src i;
      regs ← store i (swap_bytes_16 r) regs;
      swap_regs_loop src registers n' (S i) regs
  end.

(** Assembling 4 or 8 bytes, most significant first (lines 210-213 and
    318-325); each byte is converted to the wide unsigned type and shifted
    there. *)
Definition assemble32 (bytes : list Z) : option Z :=
  b0 ← bytes !! 0%nat; b1 ← bytes !! 1%nat;
  b2 ← bytes !! 2%nat; b3 ← bytes !! 3%nat;
  Some (Z.lor (Z.lor (Z.lor (uint32 (Z.shiftl b0 24)) (uint32 (Z.shiftl b1 16)))
                     (uint32 (Z.shiftl b2 8))) b3).

Definition assemble64 (bytes : list Z) : option Z :=
  b0 ← bytes !! 0%nat; b1 ← bytes !! 1%nat;
  b2 ← bytes !! 2%nat; b3 ← bytes !! 3%nat;
  b4 ← bytes !! 4%nat; b5 ← bytes !! 5%nat;
  b6 ← bytes !! 6%nat; b7 ← bytes !! 7%nat;
  Some (Z.lor (Z.lor (Z.lor (Z.lor (Z.lor (Z.lor (Z.lor
          (uint64 (Z.shiftl b0 56)) (uint64 (Z.shiftl b1 48)))
          (uint64 (Z.shiftl b2 40))) (uint64 (Z.shiftl b3 32)))
          (uint64 (Z.shiftl b4 24))) (uint64 (Z.shiftl b5 16)))
          (uint64 (Z.shiftl b6 8))) b7).

(** ** The reordering cases of the 32-bit decoders

    The bodies of the [switch] cases of [modbus_convert_int32] (lines
    176-203), which [modbus_convert_float32] repeats (lines 353-376); each
    yields the local array [bytes]. *)

Definition case_ABCD (registers : list Z) : option (list Z) :=
  let bytes := local_array 4 in
  let regs := local_array 2 in
  r ← registers !! 0%nat; regs ← store 0 r regs;
  r ← registers !! 1%nat; regs ← store 1 r regs;
  regs_to_bytes regs 2 bytes.

Definition case_DCBA (registers : list Z) : option (list Z) :=
  let bytes := local_array 4 in
  let regs := local_array 2 in
  r ← registers !! 1%nat; regs ← store 0 r regs;
  r ← registers !! 0%nat; regs ← store 1 r regs;
  bytes ← regs_to_bytes regs 2 bytes;
  bytes_reverse bytes 4.

Definition case_BADC (registers : list Z) : option (list Z) :=
  let bytes := local_array 4 in
  let regs := local_array 2 in
  r ← registers !! 0%nat; regs ← store 0 (swap_bytes_16 r) regs;
  r ← registers !! 1%nat; regs ← store 1 (swap_bytes_16 r) regs;
  regs_to_bytes regs 2 bytes.

Definition case_CDAB (registers : list Z) : option (list Z) :=
  let bytes := local_array 4 in
  let regs := local_array 2 in
  r ← registers !! 1%nat; regs ← store 0 r regs;
  r ← registers !! 0%nat; regs ← store 1 r regs;
  regs_to_bytes regs 2 bytes.

(** ** The reordering cases of the 64-bit decoders

    The bodies of the [switch] cases of [modbus_convert_int64] (lines
    242-311), which [modbus_convert_float64] repeats (lines 411-472). *)

Definition case_ABCDEFGH (registers : list Z) : option (list Z) :=
  let bytes := local_array 8 in
  regs_to_bytes registers 4 bytes.

Definition case_HGFEDCBA (registers : list Z) : option (list Z) :=
  let bytes := local_array 8 in
  let regs := local_array 4 in
  r ← registers !! 3%nat; regs ← store 0 r regs;
  r ← registers !! 2%nat; regs ← store 1 r regs;
  r ← registers !! 1%nat; regs ← store 2 r regs;
  r ← registers !! 0%nat; regs ← store 3 r regs;
  bytes ← regs_to_bytes regs 4 bytes;
  bytes_reverse bytes 8.

Definition case_BADCFEHG (registers : list Z) : option (list Z) :=
  let bytes := local_array 8 in
  let regs := local_array 4 in
  regs ← swap_regs_loop (fun i => i) registers 4 0 regs;
  regs_to_bytes regs 4 bytes.

Definition case_CDABGHEF (registers : list Z) : option (list Z) :=
  let bytes := local_array 8 in
  let regs := local_array 4 in
  r ← registers !! 1%nat; regs ← store 0 r regs;
  r ← registers !! 0%nat; regs ← store 1 r regs;
  r ← registers !! 3%nat; regs ← store 2 r regs;
  r ← registers !! 2%nat; regs ← store 3 r regs;
  regs_to_bytes regs 4 bytes.

Definition case_DCBAHGFE (registers : list Z) : option (list Z) :=
  let bytes := local_array 8 in
  let regs := local_array 4 in
  regs ← swap_regs_loop (fun i => (3 - i)%nat) registers 4 0 regs;
  bytes ← regs_to_bytes regs 4 bytes;
  bytes_reverse bytes 8.

Definition case_GHEFCDAB (registers : list Z) : option (list Z) :=
  let bytes := local_array 8 in
  let regs := local_array 4 in
  r ← registers !! 3%nat; regs ← store 0 r regs;
  r ← registers !! 2%nat; regs ← store 1 r regs;
  r ← registers !! 1%nat; regs ← store 2 r regs;
  r ← registers !! 0%nat; regs ← store 3 r regs;
  bytes ← regs_to_bytes regs 4 bytes;
  bytes_reverse bytes 8.

Definition case_FEHGBADC (registers : list Z) : option (list Z) :=
  let bytes := local_array 8 in
  let regs := local_array 4 in
  r ← registers !! 2%nat; regs ← store 0 r regs;
  r ← registers !! 3%nat; regs ← store 1 r regs;
  r ← registers !! 0%nat; regs ← store 2 r regs;
  r ← registers !! 1%nat; regs ← store 3 r regs;
  bytes ← regs_to_bytes regs 4 bytes;
  bytes_reverse bytes 8.

Definition case_EFGHABCD (registers : list Z) : option (list Z) :=
  let bytes := local_array 8 in
  let regs := local_array 4 in
  r ← registers !! 2%nat; regs ← store 0 (swap_bytes_16 r) regs;
  r ← registers !! 3%nat; regs ← store 1 (swap_bytes_16 r) regs;
  r ← registers !! 0%nat; regs ← store 2 (swap_bytes_16 r) regs;
  r ← registers !! 1%nat; regs ← store 3 (swap_bytes_16 r) regs;
  bytes ← regs_to_bytes regs 4 bytes;
  bytes_reverse bytes 8.

(** A [switch]: the cases in order, each with its labels; [None] is the
    [default] label.  The first case with a label equal to the scrutinee
    runs. *)
Fixpoint switch {A : Type} (x : Z) (cases : list (list Z * A)) : option A :=
  match cases with
  | [] => None
  | (labels, body) :: rest =>
      if existsb (Z.eqb x) labels then Some body else switch x rest
  end.

(** ** The decoders *)

(** [modbus_convert_bit_bool], lines 86-100. *)
Definition modbus_convert_bit_bool (registers : option (list Z))
    (bit_pos : Z) (result : out_ptr) : option (outcome bool) :=
  match registers, result with
  | Some registers, Addr =>
      if bit_pos >? 15 then return_ MODBUS_CONV_ERR_INVALID_BIT
      else
        r ← registers !! 0%nat;
        assign (negb (Z.land (Z.shiftr r bit_pos) 1 =? 0))
          (return_ MODBUS_CONV_OK)
  | _, _ => return_ MODBUS_CONV_ERR_NULL_PTR
  end.

(** [modbus_convert_int8_signed], lines 103-115. *)
Definition modbus_convert_int8_signed (registers : option (list Z))
    (scaling_factor : double) (result : out_ptr) : option (outcome Z) :=
  match registers, result with
  | Some registers, Addr =>
      r ← registers !! 0%nat;
      let val := uint8 (Z.land r 255) in
      let signed_val := int16 (if val >? 127 then val - 256 else val) in
      v ← int8_of_double (double_mul (double_of_int signed_val) scaling_factor);
      assign v (return_ MODBUS_CONV_OK)
  | _, _ => return_ MODBUS_CONV_ERR_NULL_PTR
  end.

(** [modbus_convert_int8_unsigned], lines 118-128. *)
Definition modbus_convert_int8_unsigned (registers : option (list Z))
    (scaling_factor : double) (result : out_ptr) : option (outcome Z) :=
  match registers, result with
  | Some registers, Addr =>
      r ← registers !! 0%nat;
      v ← uint8_of_double (double_mul (double_of_int (Z.land r 255)) scaling_factor);
      assign v (return_ MODBUS_CONV_OK)
  | _, _ => return_ MODBUS_CONV_ERR_NULL_PTR
  end.

(** [modbus_convert_int16_signed], lines 131-144. *)
Definition modbus_convert_int16_signed (registers : option (list Z))
    (swap_bytes : bool) (scaling_factor : double) (result : out_ptr)
    : option (outcome Z) :=
  match registers, result with
  | Some registers, Addr =>
      r ← registers !! 0%nat;
      let val := if swap_bytes then swap_bytes_16 r else r in
      let signed_val := int32 (if val >? 32767 then val - 65536 else val) in
      v ← int16_of_double (double_mul (double_of_int signed_val) scaling_factor);
      assign v (return_ MODBUS_CONV_OK)
  | _, _ => return_ MODBUS_CONV_ERR_NULL_PTR
  end.

(** [modbus_convert_int16_unsigned], lines 147-159. *)
Definition modbus_convert_int16_unsigned (registers : option (list Z))
    (swap_bytes : bool) (scaling_factor : double) (result : out_ptr)
    : option (outcome Z) :=
  match registers, result with
  | Some registers, Addr =>
      r ← registers !! 0%nat;
      let val := if swap_bytes then swap_bytes_16 r else r in
      v ← uint16_of_double (double_mul (double_of_int val) scaling_factor);
      assign v (return_ MODBUS_CONV_OK)
  | _, _ => return_ MODBUS_CONV_ERR_NULL_PTR
  end.

(** [modbus_convert_int32], lines 162-224. *)
Definition modbus_convert_int32 (registers : option (list Z))
    (data_type : Z) (scaling_factor : double) (result : out_ptr)
    : option (outcome modbus_value_t) :=
  match registers, result with
  | Some registers, Addr =>
      match switch data_type
        [ ([MODBUS_INT32_SIGNED_ABCD; MODBUS_INT32_UNSIGNED_ABCD], case_ABCD registers);
          ([MODBUS_INT32_SIGNED_DCBA; MODBUS_INT32_UNSIGNED_DCBA], case_DCBA registers);
          ([MODBUS_INT32_SIGNED_BADC; MODBUS_INT32_UNSIGNED_BADC], case_BADC registers);
          ([MODBUS_INT32_SIGNED_CDAB; MODBUS_INT32_UNSIGNED_CDAB], case_CDAB registers) ]
      with
      | None => return_ MODBUS_CONV_ERR_INVALID_TYPE
      | Some reordered =>
          bytes ← reordered;
          u32_val ← assemble32 bytes;
          if (data_type >=? MODBUS_INT32_UNSIGNED_ABCD)
             && (data_type <=? MODBUS_INT32_UNSIGNED_CDAB)
          then
            v ← uint32_of_double (double_mul (double_of_int u32_val) scaling_factor);
            assign (u32 v) (return_ MODBUS_CONV_OK)
          else
            let i32_val := int32 u32_val in
            v ← int32_of_double (double_mul (double_of_int i32_val) scaling_factor);
            assign (i32 v) (return_ MODBUS_CONV_OK)
      end
  | _, _ => return_ MODBUS_CONV_ERR_NULL_PTR
  end.

(** [modbus_convert_int64], lines 227-336. *)
Definition modbus_convert_int64 (registers : option (list Z))
    (data_type : Z) (scaling_factor : double) (result : out_ptr)
    : option (outcome modbus_value_t) :=
  match registers, result with
  | Some registers, Addr =>
      match switch data_type
        [ ([MODBUS_INT64_SIGNED_ABCDEFGH; MODBUS_INT64_UNSIGNED_ABCDEFGH], case_ABCDEFGH registers);
          ([MODBUS_INT64_SIGNED_HGFEDCBA; MODBUS_INT64_UNSIGNED_HGFEDCBA], case_HGFEDCBA registers);
          ([MODBUS_INT64_SIGNED_BADCFEHG; MODBUS_INT64_UNSIGNED_BADCFEHG], case_BADCFEHG registers);
          ([MODBUS_INT64_SIGNED_CDABGHEF; MODBUS_INT64_UNSIGNED_CDABGHEF], case_CDABGHEF registers);
          ([MODBUS_INT64_SIGNED_DCBAHGFE; MODBUS_INT64_UNSIGNED_DCBAHGFE], case_DCBAHGFE registers);
          ([MODBUS_INT64_SIGNED_GHEFCDAB; MODBUS_INT64_UNSIGNED_GHEFCDAB], case_GHEFCDAB registers);
          ([MODBUS_INT64_SIGNED_FEHGBADC; MODBUS_INT64_UNSIGNED_FEHGBADC], case_FEHGBADC registers);
          ([MODBUS_INT64_SIGNED_EFGHABCD; MODBUS_INT64_UNSIGNED_EFGHABCD], case_EFGHABCD registers) ]
      with
      | None => return_ MODBUS_CONV_ERR_INVALID_TYPE
      | Some reordered =>
          bytes ← reordered;
          u64_val ← assemble64 bytes;
          if (data_type >=? MODBUS_INT64_UNSIGNED_ABCDEFGH)
             && (data_type <=? MODBUS_INT64_UNSIGNED_EFGHABCD)
          then
            v ← uint64_of_double (double_mul (double_of_int u64_val) scaling_factor);
            assign (u64 v) (return_ MODBUS_CONV_OK)
          else
            let i64_val := int64 u64_val in
            v ← int64_of_double (double_mul (double_of_int i64_val) scaling_factor);
            assign (i64 v) (return_ MODBUS_CONV_OK)
      end
  | _, _ => return_ MODBUS_CONV_ERR_NULL_PTR
  end.

(** [modbus_convert_float32], lines 339-393. *)
Definition modbus_convert_float32 (registers : option (list Z))
    (data_type : Z) (scaling_factor : double) (result : out_ptr)
    : option (outcome float) :=
  match registers, result with
  | Some registers, Addr =>
      match switch data_type
        [ ([MODBUS_IEEE_FLOAT32_ABCD], case_ABCD registers);
          ([MODBUS_IEEE_FLOAT32_CDAB], case_CDAB registers);
          ([MODBUS_IEEE_FLOAT32_DCBA], case_DCBA registers);
          ([MODBUS_IEEE_FLOAT32_BADC], case_BADC registers) ]
      with
      | None => return_ MODBUS_CONV_ERR_INVALID_TYPE
      | Some reordered =>
          bytes ← reordered;
          u32_val ← assemble32 bytes;
          let f32_val := float_of_bits u32_val in
          assign
            (float_of_double (double_mul (double_of_float f32_val) scaling_factor))
            (return_ MODBUS_CONV_OK)
      end
  | _, _ => return_ MODBUS_CONV_ERR_NULL_PTR
  end.

(** [modbus_convert_float64], lines 396-493. *)
Definition modbus_convert_float64 (registers : option (list Z))
    (data_type : Z) (scaling_factor : double) (result : out_ptr)
    : option (outcome double) :=
  match registers, result with
  | Some registers, Addr =>
      match switch data_type
        [ ([MODBUS_IEEE_FLOAT64_ABCDEFGH], case_ABCDEFGH registers);
          ([MODBUS_IEEE_FLOAT64_HGFEDCBA], case_HGFEDCBA registers);
          ([MODBUS_IEEE_FLOAT64_BADCFEHG], case_BADCFEHG registers);
          ([MODBUS_IEEE_FLOAT64_CDABGHEF], case_CDABGHEF registers);
          ([MODBUS_IEEE_FLOAT64_DCBAHGFE], case_DCBAHGFE registers);
          ([MODBUS_IEEE_FLOAT64_GHEFCDAB], case_GHEFCDAB registers);
          ([MODBUS_IEEE_FLOAT64_FEHGBADC], case_FEHGBADC registers);
          ([MODBUS_IEEE_FLOAT64_EFGHABCD], case_EFGHABCD registers) ]
      with
      | None => return_ MODBUS_CONV_ERR_INVALID_TYPE
      | Some reordered =>
          bytes ← reordered;
          u64_val ← assemble64 bytes;
          let f64_val := double_of_bits u64_val in
          assign (double_mul f64_val scaling_factor) (return_ MODBUS_CONV_OK)
      end
  | _, _ => return_ MODBUS_CONV_ERR_NULL_PTR
  end.

(** [modbus_convert], lines 20-83. *)
Definition modbus_convert (registers : option (list Z)) (reg_count : Z)
    (data_type : Z) (bit_pos : Z) (scaling_factor : double) (result : out_ptr)
    : option (outcome modbus_value_t) :=
  match registers, result with
  | Some _, Addr =>
      if reg_count =? 0 then return_ MODBUS_CONV_ERR_INSUFF_REGS
      else if data_type =? MODBUS_BIT_BOOLEAN then
        member bool_val (modbus_convert_bit_bool registers bit_pos result)
      else if data_type =? MODBUS_INT8_SIGNED then
        member i8 (modbus_convert_int8_signed registers scaling_factor result)
      else if data_type =? MODBUS_INT8_UNSIGNED then
        member u8 (modbus_convert_int8_unsigned registers scaling_factor result)
      else if data_type =? MODBUS_INT16_SIGNED_AB then
        member i16 (modbus_convert_int16_signed registers false scaling_factor result)
      else if data_type =? MODBUS_INT16_SIGNED_BA then
        member i16 (modbus_convert_int16_signed registers true scaling_factor result)
      else if data_type =? MODBUS_INT16_UNSIGNED_AB then
        member u16 (modbus_convert_int16_unsigned registers false scaling_factor result)
      else if data_type =? MODBUS_INT16_UNSIGNED_BA then
        member u16 (modbus_convert_int16_unsigned registers true scaling_factor result)
      else if (data_type >=? MODBUS_INT32_SIGNED_ABCD)
              && (data_type <=? MODBUS_INT32_UNSIGNED_CDAB) then
        modbus_convert_int32 registers data_type scaling_factor result
      else if (data_type >=? MODBUS_INT64_SIGNED_ABCDEFGH)
              && (data_type <=? MODBUS_INT64_UNSIGNED_EFGHABCD) then
        modbus_convert_int64 registers data_type scaling_factor result
      else if (data_type >=? MODBUS_IEEE_FLOAT32_ABCD)
              && (data_type <=? MODBUS_IEEE_FLOAT32_BADC) then
        member f32 (modbus_convert_float32 registers data_type scaling_factor result)
      else if (data_type >=? MODBUS_IEEE_FLOAT64_ABCDEFGH)
              && (data_type <=? MODBUS_IEEE_FLOAT64_EFGHABCD) then
        member f64 (modbus_convert_float64 registers data_type scaling_factor result)
      else return_ MODBUS_CONV_ERR_INVALID_TYPE
  | _, _ => return_ MODBUS_CONV_ERR_NULL_PTR
  end.

(** ** Error descriptions *)

Section ErrorString.

Import String.

(** [modbus_conv_get_error_string], lines 496-514; the string literal that
    each [return] yields. *)
Definition modbus_conv_get_error_string (error_code : Z) : string :=
  match switch error_code
    [ ([MODBUS_CONV_OK], "Success"%string);
      ([MODBUS_CONV_ERR_NULL_PTR], "Null pointer error"%string);
      ([MODBUS_CONV_ERR_INVALID_TYPE], "Invalid data type"%string);
      ([MODBUS_CONV_ERR_INVALID_BIT], "Invalid bit position (must be 0-15)"%string);
      ([MODBUS_CONV_ERR_INSUFF_REGS], "Insufficient registers for conversion"%string);
      ([MODBUS_CONV_ERR_UNKNOWN], "Unknown error"%string) ]
  with
  | Some description => description
  | None => "Unrecognized error code"%string
  end.

End ErrorString.

(** * The vocabulary of the specification

    The definitions of module [Spec] follow the words of the specification,
    not the code; the theorems compare them with the decoders above. *)

Module Spec.

(** A 16-bit word as two bytes, most significant first, and the word with
    its two bytes exchanged. *)
Definition word_be_bytes (w : Z) : list Z := [w / 256; w mod 256].
Definition byte_swapped (w : Z) : Z := (w mod 256) * 256 + w / 256.

(** The unsigned number a byte sequence denotes, most significant byte
    first. *)
Definition msb_first (bytes : list Z) : Z :=
  fold_left (fun acc b => acc * 256 + b) bytes 0.

(** The value an [N]-bit pattern has in two's complement: patterns above
    [2^(N-1) - 1] are negative. *)
Definition twos_complement (N : Z) (u : Z) : Z :=
  if u >? 2^(N-1) - 1 then u - 2^N else u.

(** The eight 64-bit patterns and the table of section 4.6: for each
    pattern the source word (counted from 0) of each destination slot,
    whether the bytes of each word are swapped, and whether the whole
    8-byte sequence is reversed at the end. *)
Inductive pattern64 : Type :=
  | ABCDEFGH | HGFEDCBA | BADCFEHG | CDABGHEF
  | DCBAHGFE | GHEFCDAB | FEHGBADC | EFGHABCD.

Record table_row : Type := Row {
  word_order : list nat;
  byte_swap : bool;
  full_reversal : bool
}.

Definition table64 (p : pattern64) : table_row :=
  match p with
  | ABCDEFGH => Row [0; 1; 2; 3]%nat false false
  | HGFEDCBA => Row [3; 2; 1; 0]%nat false true
  | BADCFEHG => Row [0; 1; 2; 3]%nat true false
  | CDABGHEF => Row [1; 0; 3; 2]%nat false false
  | DCBAHGFE => Row [3; 2; 1; 0]%nat true true
  | GHEFCDAB => Row [3; 2; 1; 0]%nat false true
  | FEHGBADC => Row [2; 3; 0; 1]%nat false true
  | EFGHABCD => Row [2; 3; 0; 1]%nat true true
  end.

(** The reordering of section 4.6, step by step: select the source word of
    each slot, swap the bytes of each word, serialize the words big-endian,
    reverse the whole sequence, and assemble it most significant byte
    first. *)
Definition reordered_bytes (row : table_row) (registers : list Z) : list Z :=
  let selected := map (fun i => nth i registers 0) (word_order row) in
  let swapped := if byte_swap row then map byte_swapped selected else selected in
  let bytes := concat (map word_be_bytes swapped) in
  if full_reversal row then rev bytes else bytes.

Definition raw64 (row : table_row) (registers : list Z) : Z :=
  msb_first (reordered_bytes row registers).

(** A binary32 bit pattern as two 16-bit words, most significant first. *)
Definition float_be_words (bits : Z) : list Z := [bits / 2^16; bits mod 2^16].

(** The bit patterns of binary32 that are numbers: 32 bits, and a fraction
    of zero when the exponent field is all ones (the infinities; the other
    such patterns are NaNs). *)
Definition is_binary32_number (bits : Z) : Prop :=
  0 <= bits < 2^32 /\ ((bits / 2^23) mod 2^8 = 255 -> bits mod 2^23 = 0).

End Spec.

Import Spec.

(** * Vocabulary of the theorems *)

(** A call that failed with code [c], and a call that succeeded and stored
    [v]. *)
Definition fail {A : Type} (c : Z) : option (outcome A) := return_ c.
Definition store_ok {A : Type} (v : A) : option (outcome A) :=
  assign v (return_ MODBUS_CONV_OK).

(** The scaling factors [1.0] and [2.0] as [double] constants. *)
Definition double_1_0 : double := S754_finite false 4503599627370496 (-52).
Definition double_2_0 : double := S754_finite false 4503599627370496 (-51).

(** The signed and the unsigned enumerator of a pattern, and the [switch]
    case of the 64-bit decoders that they label. *)
Definition int64_signed (p : pattern64) : Z :=
  match p with
  | ABCDEFGH => MODBUS_INT64_SIGNED_ABCDEFGH
  | HGFEDCBA => MODBUS_INT64_SIGNED_HGFEDCBA
  | BADCFEHG => MODBUS_INT64_SIGNED_BADCFEHG
  | CDABGHEF => MODBUS_INT64_SIGNED_CDABGHEF
  | DCBAHGFE => MODBUS_INT64_SIGNED_DCBAHGFE
  | GHEFCDAB => MODBUS_INT64_SIGNED_GHEFCDAB
  | FEHGBADC => MODBUS_INT64_SIGNED_FEHGBADC
  | EFGHABCD => MODBUS_INT64_SIGNED_EFGHABCD
  end.

Definition int64_unsigned (p : pattern64) : Z :=
  match p with
  | ABCDEFGH => MODBUS_INT64_UNSIGNED_ABCDEFGH
  | HGFEDCBA => MODBUS_INT64_UNSIGNED_HGFEDCBA
  | BADCFEHG => MODBUS_INT64_UNSIGNED_BADCFEHG
  | CDABGHEF => MODBUS_INT64_UNSIGNED_CDABGHEF
  | DCBAHGFE => MODBUS_INT64_UNSIGNED_DCBAHGFE
  | GHEFCDAB => MODBUS_INT64_UNSIGNED_GHEFCDAB
  | FEHGBADC => MODBUS_INT64_UNSIGNED_FEHGBADC
  | EFGHABCD => MODBUS_INT64_UNSIGNED_EFGHABCD
  end.

Definition case64 (p : pattern64) : list Z -> option (list Z) :=
  match p with
  | ABCDEFGH => case_ABCDEFGH | HGFEDCBA => case_HGFEDCBA
  | BADCFEHG => case_BADCFEHG | CDABGHEF => case_CDABGHEF
  | DCBAHGFE => case_DCBAHGFE | GHEFCDAB => case_GHEFCDAB
  | FEHGBADC => case_FEHGBADC | EFGHABCD => case_EFGHABCD
  end.

(** A call left the caller's result object as it was. *)
Definition result_untouched {A : Type} (o : outcome A) : Prop :=
  stored o = None /\ forall before : A, slot_after before o = before.

(** The error codes the decoders produce. *)
Definition error_codes : list Z :=
  [ MODBUS_CONV_ERR_NULL_PTR; MODBUS_CONV_ERR_INVALID_TYPE;
    MODBUS_CONV_ERR_INVALID_BIT; MODBUS_CONV_ERR_INSUFF_REGS ].

(** Atomicity on error: a call that returns a code other than
    [MODBUS_CONV_OK] returns one of the error codes and leaves the result
    object untouched. *)
Definition atomic_on_error {A : Type} (call : option (outcome A)) : Prop :=
  forall o : outcome A,
    call = Some o -> code o <> MODBUS_CONV_OK ->
    In (code o) error_codes /\ result_untouched o.

(** * Vocabulary of the further properties *)

(** The 32-bit number with high word [hi] and low word [lo]. *)
Definition word_pair (hi lo : Z) : Z := hi * 2^16 + lo.

(** The four 32-bit patterns, their enumerators and the [switch] case that
    the enumerators label. *)
Inductive pattern32 : Type := ABCD | DCBA | BADC | CDAB.

Definition int32_signed (p : pattern32) : Z :=
  match p with
  | ABCD => MODBUS_INT32_SIGNED_ABCD | DCBA => MODBUS_INT32_SIGNED_DCBA
  | BADC => MODBUS_INT32_SIGNED_BADC | CDAB => MODBUS_INT32_SIGNED_CDAB
  end.

Definition int32_unsigned (p : pattern32) : Z :=
  match p with
  | ABCD => MODBUS_INT32_UNSIGNED_ABCD | DCBA => MODBUS_INT32_UNSIGNED_DCBA
  | BADC => MODBUS_INT32_UNSIGNED_BADC | CDAB => MODBUS_INT32_UNSIGNED_CDAB
  end.

Definition float32_tag (p : pattern32) : Z :=
  match p with
  | ABCD => MODBUS_IEEE_FLOAT32_ABCD | DCBA => MODBUS_IEEE_FLOAT32_DCBA
  | BADC => MODBUS_IEEE_FLOAT32_BADC | CDAB => MODBUS_IEEE_FLOAT32_CDAB
  end.

Definition case32 (p : pattern32) : list Z -> option (list Z) :=
  match p with
  | ABCD => case_ABCD | DCBA => case_DCBA | BADC => case_BADC | CDAB => case_CDAB
  end.

(** The 32-bit number that the case of a pattern assembles from the
    registers [r0] and [r1]: ABCD keeps the words, CDAB exchanges them, and
    BADC and DCBA both keep the words and swap the bytes inside each. *)
Definition word32 (p : pattern32) (r0 r1 : Z) : Z :=
  match p with
  | ABCD => word_pair r0 r1
  | CDAB => word_pair r1 r0
  | BADC | DCBA => word_pair (byte_swapped r0) (byte_swapped r1)
  end.

(** The float64 enumerator of a 64-bit pattern. *)
Definition float64_tag (p : pattern64) : Z :=
  match p with
  | ABCDEFGH => MODBUS_IEEE_FLOAT64_ABCDEFGH
  | HGFEDCBA => MODBUS_IEEE_FLOAT64_HGFEDCBA
  | BADCFEHG => MODBUS_IEEE_FLOAT64_BADCFEHG
  | CDABGHEF => MODBUS_IEEE_FLOAT64_CDABGHEF
  | DCBAHGFE => MODBUS_IEEE_FLOAT64_DCBAHGFE
  | GHEFCDAB => MODBUS_IEEE_FLOAT64_GHEFCDAB
  | FEHGBADC => MODBUS_IEEE_FLOAT64_FEHGBADC
  | EFGHABCD => MODBUS_IEEE_FLOAT64_EFGHABCD
  end.

(** A call that, whenever it has an outcome, returned [MODBUS_CONV_OK] and
    stored a value that satisfies [P]. *)
Definition succeeds_with {A : Type} (P : A -> Prop)
    (call : option (outcome A)) : Prop :=
  forall o : outcome A,
    call = Some o ->
    code o = MODBUS_CONV_OK /\ exists v : A, stored o = Some v /\ P v.

(** The values of the C integer type with [N] bits, signed and unsigned. *)
Definition signed_range (N : Z) (z : Z) : Prop := - 2^(N-1) <= z <= 2^(N-1) - 1.
Definition unsigned_range (N : Z) (z : Z) : Prop := 0 <= z <= 2^N - 1.

(** The member of the union that belongs to a data type, holding a value of
    the member's C type. *)
Definition fits (data_type : Z) (v : modbus_value_t) : Prop :=
  match v with
  | bool_val _ => data_type = MODBUS_BIT_BOOLEAN
  | i8 z => data_type = MODBUS_INT8_SIGNED /\ signed_range 8 z
  | u8 z => data_type = MODBUS_INT8_UNSIGNED /\ unsigned_range 8 z
  | i16 z =>
      MODBUS_INT16_SIGNED_AB <= data_type <= MODBUS_INT16_SIGNED_BA
      /\ signed_range 16 z
  | u16 z =>
      MODBUS_INT16_UNSIGNED_AB <= data_type <= MODBUS_INT16_UNSIGNED_BA
      /\ unsigned_range 16 z
  | i32 z =>
      MODBUS_INT32_SIGNED_ABCD <= data_type <= MODBUS_INT32_SIGNED_CDAB
      /\ signed_range 32 z
  | u32 z =>
      MODBUS_INT32_UNSIGNED_ABCD <= data_type <= MODBUS_INT32_UNSIGNED_CDAB
      /\ unsigned_range 32 z
  | i64 z =>
      MODBUS_INT64_SIGNED_ABCDEFGH <= data_type <= MODBUS_INT64_SIGNED_EFGHABCD
      /\ signed_range 64 z
  | u64 z =>
      MODBUS_INT64_UNSIGNED_ABCDEFGH <= data_type <= MODBUS_INT64_UNSIGNED_EFGHABCD
      /\ unsigned_range 64 z
  | f32 _ => MODBUS_IEEE_FLOAT32_ABCD <= data_type <= MODBUS_IEEE_FLOAT32_BADC
  | f64 _ => MODBUS_IEEE_FLOAT64_ABCDEFGH <= data_type <= MODBUS_IEEE_FLOAT64_EFGHABCD
  end.

(** The return code of [modbus_convert] as a decision table. *)
Definition return_code (registers : option (list Z))
    (reg_count data_type bit_pos : Z) (result : out_ptr) : Z :=
  match registers, result with
  | Some _, Addr =>
      if reg_count =? 0 then MODBUS_CONV_ERR_INSUFF_REGS
      else if (data_type <? MODBUS_BIT_BOOLEAN)
              || (data_type >? MODBUS_IEEE_FLOAT64_EFGHABCD)
      then MODBUS_CONV_ERR_INVALID_TYPE
      else if (data_type =? MODBUS_BIT_BOOLEAN) && (bit_pos >? 15)
      then MODBUS_CONV_ERR_INVALID_BIT
      else MODBUS_CONV_OK
  | _, _ => MODBUS_CONV_ERR_NULL_PTR
  end.

(** The enumerators of [modbus_data_type_t] as numbers. *)
Ltac unfold_tags :=
  unfold MODBUS_BIT_BOOLEAN, MODBUS_INT8_SIGNED, MODBUS_INT8_UNSIGNED,
    MODBUS_INT16_SIGNED_AB, MODBUS_INT16_SIGNED_BA,
    MODBUS_INT16_UNSIGNED_AB, MODBUS_INT16_UNSIGNED_BA,
    MODBUS_INT32_SIGNED_ABCD, MODBUS_INT32_SIGNED_DCBA,
    MODBUS_INT32_SIGNED_BADC, MODBUS_INT32_SIGNED_CDAB,
    MODBUS_INT32_UNSIGNED_ABCD, MODBUS_INT32_UNSIGNED_DCBA,
    MODBUS_INT32_UNSIGNED_BADC, MODBUS_INT32_UNSIGNED_CDAB,
    MODBUS_INT64_SIGNED_ABCDEFGH, MODBUS_INT64_SIGNED_HGFEDCBA,
    MODBUS_INT64_SIGNED_BADCFEHG, MODBUS_INT64_SIGNED_CDABGHEF,
    MODBUS_INT64_SIGNED_DCBAHGFE, MODBUS_INT64_SIGNED_GHEFCDAB,
    MODBUS_INT64_SIGNED_FEHGBADC, MODBUS_INT64_SIGNED_EFGHABCD,
    MODBUS_INT64_UNSIGNED_ABCDEFGH, MODBUS_INT64_UNSIGNED_HGFEDCBA,
    MODBUS_INT64_UNSIGNED_BADCFEHG, MODBUS_INT64_UNSIGNED_CDABGHEF,
    MODBUS_INT64_UNSIGNED_DCBAHGFE, MODBUS_INT64_UNSIGNED_GHEFCDAB,
    MODBUS_INT64_UNSIGNED_FEHGBADC, MODBUS_INT64_UNSIGNED_EFGHABCD,
    MODBUS_IEEE_FLOAT32_ABCD, MODBUS_IEEE_FLOAT32_CDAB,
    MODBUS_IEEE_FLOAT32_DCBA, MODBUS_IEEE_FLOAT32_BADC,
    MODBUS_IEEE_FLOAT64_ABCDEFGH, MODBUS_IEEE_FLOAT64_HGFEDCBA,
    MODBUS_IEEE_FLOAT64_BADCFEHG, MODBUS_IEEE_FLOAT64_CDABGHEF,
    MODBUS_IEEE_FLOAT64_DCBAHGFE, MODBUS_IEEE_FLOAT64_GHEFCDAB,
    MODBUS_IEEE_FLOAT64_FEHGBADC, MODBUS_IEEE_FLOAT64_EFGHABCD in *.

(** The byte layout of each 64-bit pattern, named by the first pattern of
    the enumeration that has it. *)
Definition layout64 (p : pattern64) : pattern64 :=
  match p with
  | ABCDEFGH | DCBAHGFE => ABCDEFGH
  | BADCFEHG | HGFEDCBA | GHEFCDAB => BADCFEHG
  | CDABGHEF | EFGHABCD => CDABGHEF
  | FEHGBADC => FEHGBADC
  end.





(** * Proof tools *)

(** Linear arithmetic with division and remainder by constants. *)
Ltac dlia := Z.div_mod_to_equations; lia.

(** Facts about [atomic_on_error], applied by [auto with atomic]. *)
Create HintDb atomic.

(** * Lemmas *)

(** ** Bit operations as arithmetic *)

Lemma land_255 (z : Z) : Z.land z 255 = z mod 256.
Proof. change 255 with (Z.ones 8). now rewrite Z.land_ones. Qed.

Lemma shiftr_8 (z : Z) : Z.shiftr z 8 = z / 256.
Proof. now rewrite Z.shiftr_div_pow2. Qed.

Lemma land_disjoint (x y n : Z) :
  0 <= n -> 0 <= y < 2^n -> x mod 2^n = 0 -> Z.land x y = 0.
Proof.
  intros Hn Hy Hx. apply Z.bits_inj'; intros k Hk.
  rewrite Z.land_spec, Z.bits_0.
  destruct (Z.lt_ge_cases k n) as [Hlt | Hge].
  - rewrite <- (Z.mod_pow2_bits_low x n k), Hx, Z.bits_0 by lia. reflexivity.
  - rewrite <- (Z.mod_small y (2^n)), Z.mod_pow2_bits_high by lia.
    apply andb_false_r.
Qed.

(** [x | y] is [x + y] when [y] fits below the lowest set bit of [x]. *)
Lemma lor_disjoint (x y n : Z) :
  0 <= n -> 0 <= y < 2^n -> x mod 2^n = 0 -> Z.lor x y = x + y.
Proof.
  intros Hn Hy Hx.
  pose proof (land_disjoint x y n Hn Hy Hx) as Hland.
  now rewrite <- Z.lxor_lor, <- Z.add_nocarry_lxor.
Qed.

(** [(r >> n) & 1], read as a [bool], is bit [n] of [r]. *)
Lemma testbit_shift_mask (r n : Z) :
  negb (Z.land (Z.shiftr r n) 1 =? 0) = Z.testbit r n.
Proof.
  rewrite Z.testbit_odd.
  change 1 with (Z.ones 1). rewrite Z.land_ones by lia.
  change (2^1) with 2. rewrite Zmod_odd.
  now destruct (Z.odd (Z.shiftr r n)).
Qed.

(** ** The two bytes of a register *)

Lemma hi_byte (r : Z) : is_u16 r -> Z.land (Z.shiftr r 8) 255 = r / 256.
Proof.
  unfold is_u16. intros Hr. rewrite land_255, shiftr_8.
  apply Z.mod_small. change (2^16) with 65536 in Hr. dlia.
Qed.

Lemma lo_byte (r : Z) : Z.land r 255 = r mod 256.
Proof. apply land_255. Qed.

Lemma u16_bytes (r : Z) : is_u16 r -> is_u8 (r / 256) /\ is_u8 (r mod 256).
Proof.
  unfold is_u16, is_u8. change (2 ^ 16) with 65536. change (2 ^ 8) with 256.
  intros Hr. split; dlia.
Qed.

Lemma swap_bytes_16_spec (r : Z) : is_u16 r -> swap_bytes_16 r = byte_swapped r.
Proof.
  unfold is_u16, swap_bytes_16, byte_swapped, uint16, uint. intros Hr.
  change (2^16) with 65536 in *.
  rewrite hi_byte, lo_byte, Z.shiftl_mul_pow2 by (unfold is_u16; lia).
  change (2^8) with 256.
  rewrite (lor_disjoint _ _ 8); change (2^8) with 256; dlia.
Qed.

Lemma byte_swapped_u16 (r : Z) : is_u16 r -> is_u16 (byte_swapped r).
Proof. unfold is_u16, byte_swapped. change (2^16) with 65536. dlia. Qed.

Lemma byte_swapped_hi_lo (r : Z) :
  is_u16 r ->
  byte_swapped r / 256 = r mod 256 /\ byte_swapped r mod 256 = r / 256.
Proof.
  unfold is_u16, byte_swapped. change (2 ^ 16) with 65536. intros Hr. split; dlia.
Qed.

(** ** Assembling bytes *)

Lemma assemble32_msb_first (b0 b1 b2 b3 : Z) :
  is_u8 b0 -> is_u8 b1 -> is_u8 b2 -> is_u8 b3 ->
  assemble32 [b0; b1; b2; b3] = Some (msb_first [b0; b1; b2; b3]).
Proof.
  unfold is_u8. change (2^8) with 256. intros H0 H1 H2 H3.
  unfold assemble32, msb_first, uint32, uint.
  cbn [lookup list_lookup mbind option_bind fold_left].
  f_equal. rewrite !Z.shiftl_mul_pow2 by lia.
  change (2^32) with 4294967296. change (2^24) with 16777216.
  change (2^16) with 65536. change (2^8) with 256.
  rewrite !Z.mod_small by lia.
  rewrite (lor_disjoint _ (b1 * _) 24), (lor_disjoint _ (b2 * _) 16),
    (lor_disjoint _ b3 8);
    change (2^24) with 16777216; change (2^16) with 65536; change (2^8) with 256;
    dlia.
Qed.

Lemma assemble64_msb_first (b0 b1 b2 b3 b4 b5 b6 b7 : Z) :
  is_u8 b0 -> is_u8 b1 -> is_u8 b2 -> is_u8 b3 ->
  is_u8 b4 -> is_u8 b5 -> is_u8 b6 -> is_u8 b7 ->
  assemble64 [b0; b1; b2; b3; b4; b5; b6; b7]
  = Some (msb_first [b0; b1; b2; b3; b4; b5; b6; b7]).
Proof.
  unfold is_u8. change (2^8) with 256. intros H0 H1 H2 H3 H4 H5 H6 H7.
  unfold assemble64, msb_first, uint64, uint.
  cbn [lookup list_lookup mbind option_bind fold_left].
  f_equal. rewrite !Z.shiftl_mul_pow2 by lia.
  change (2^64) with 18446744073709551616.
  change (2^56) with 72057594037927936. change (2^48) with 281474976710656.
  change (2^40) with 1099511627776. change (2^32) with 4294967296.
  change (2^24) with 16777216. change (2^16) with 65536. change (2^8) with 256.
  rewrite !Z.mod_small by lia.
  rewrite (lor_disjoint _ (b1 * _) 56), (lor_disjoint _ (b2 * _) 48),
    (lor_disjoint _ (b3 * _) 40), (lor_disjoint _ (b4 * _) 32),
    (lor_disjoint _ (b5 * _) 24), (lor_disjoint _ (b6 * _) 16),
    (lor_disjoint _ b7 8);
    change (2^56) with 72057594037927936; change (2^48) with 281474976710656;
    change (2^40) with 1099511627776; change (2^32) with 4294967296;
    change (2^24) with 16777216; change (2^16) with 65536; change (2^8) with 256;
    dlia.
Qed.

Lemma assemble64_bytes (bytes : list Z) :
  length bytes = 8%nat -> Forall is_u8 bytes ->
  assemble64 bytes = Some (msb_first bytes).
Proof.
  intros Hlen Hb.
  do 8 (destruct bytes as [ | ? bytes ]; [ discriminate | ]).
  destruct bytes; [ | discriminate ].
  repeat match goal with H : Forall _ (_ :: _) |- _ => inversion_clear H end.
  now apply assemble64_msb_first.
Qed.

Lemma msb_first_bound (bytes : list Z) :
  Forall is_u8 bytes -> 0 <= msb_first bytes < 256 ^ Z.of_nat (length bytes).
Proof.
  unfold msb_first. intros Hb.
  assert (Hgen : forall acc n, 0 <= acc < 256 ^ Z.of_nat n ->
            0 <= fold_left (fun a b => a * 256 + b) bytes acc
              < 256 ^ Z.of_nat (n + length bytes)).
  { induction Hb as [ | b bs Hb Hbs IH ]; intros acc n Hacc; cbn [fold_left length].
    - now rewrite Nat.add_0_r.
    - replace (n + S (length bs))%nat with (S n + length bs)%nat by lia.
      apply IH. rewrite Nat2Z.inj_succ, Z.pow_succ_r by lia.
      unfold is_u8 in Hb. change (2^8) with 256 in Hb. lia. }
  apply (Hgen 0 0%nat). cbn. lia.
Qed.

(** ** Two's complement *)

Lemma int8_signed_value (r : Z) :
  int16 (if uint8 (Z.land r 255) >? 127 then uint8 (Z.land r 255) - 256
         else uint8 (Z.land r 255))
  = twos_complement 8 (r mod 256).
Proof.
  unfold uint8, uint, int16, sint, twos_complement.
  rewrite land_255. change (2 ^ 8) with 256. change (2 ^ (8 - 1) - 1) with 127.
  change (2 ^ 16) with 65536. change (2 ^ (16 - 1)) with 32768.
  rewrite Z.mod_mod by lia.
  assert (Hb : 0 <= r mod 256 < 256) by (apply Z.mod_pos_bound; lia).
  destruct (Z.gtb_spec (r mod 256) 127).
  - replace ((r mod 256 - 256) mod 65536) with (r mod 256 - 256 + 65536) by dlia.
    destruct (Z.ltb_spec (r mod 256 - 256 + 65536) 32768); lia.
  - rewrite Z.mod_small by lia.
    destruct (Z.ltb_spec (r mod 256) 32768); lia.
Qed.

Lemma twos_complement_8_range (b : Z) :
  0 <= b < 256 -> - 128 <= twos_complement 8 b <= 127.
Proof.
  unfold twos_complement. change (2 ^ 8) with 256. change (2 ^ (8 - 1) - 1) with 127.
  intros Hb. destruct (Z.gtb_spec b 127); lia.
Qed.

Lemma int64_twos_complement (u : Z) :
  0 <= u < 2 ^ 64 -> int64 u = twos_complement 64 u.
Proof.
  unfold int64, sint, twos_complement. intros Hu.
  rewrite Z.mod_small by lia.
  change (2 ^ (64 - 1)) with 9223372036854775808.
  change (2 ^ 64) with 18446744073709551616 in *.
  destruct (Z.ltb_spec u 9223372036854775808),
    (Z.gtb_spec u (9223372036854775808 - 1)); lia.
Qed.

(** ** The number of binary digits *)

Lemma digits2_pos_bounds (p : positive) :
  2 ^ (Zpos (digits2_pos p) - 1) <= Zpos p < 2 ^ Zpos (digits2_pos p).
Proof.
  induction p as [p IH | p IH | ]; cbn [digits2_pos]; [ | | cbn; lia ];
    rewrite Pos2Z.inj_succ;
    replace (Z.succ (Zpos (digits2_pos p)) - 1) with (Zpos (digits2_pos p)) by lia;
    rewrite Z.pow_succ_r by lia;
    assert (H2 : 2 ^ Zpos (digits2_pos p) = 2 * 2 ^ (Zpos (digits2_pos p) - 1))
      by (rewrite <- Z.pow_succ_r by lia; f_equal; lia);
    lia.
Qed.

Lemma digits2_pos_unique (p : positive) (n : Z) :
  2 ^ (n - 1) <= Zpos p < 2 ^ n -> Zpos (digits2_pos p) = n.
Proof.
  intros [Hlo Hhi]. pose proof (digits2_pos_bounds p) as [Dlo Dhi].
  set (d := Zpos (digits2_pos p)) in *.
  assert (Hn : 0 <= n).
  { destruct (Z.le_gt_cases 0 n) as [ | Hneg ]; trivial.
    rewrite (Z.pow_neg_r 2 n) in Hhi by lia. lia. }
  destruct (Z.lt_trichotomy d n) as [Hlt | [Heq | Hgt]]; trivial; exfalso.
  - assert (2 ^ d <= 2 ^ (n - 1)) by (apply Z.pow_le_mono_r; lia). lia.
  - assert (2 ^ n <= 2 ^ (d - 1)) by (apply Z.pow_le_mono_r; lia). lia.
Qed.

Lemma digits2_pos_le (p : positive) (n : Z) :
  Zpos p < 2 ^ n -> Zpos (digits2_pos p) <= n.
Proof.
  intros Hp. pose proof (digits2_pos_bounds p) as [Dlo Dhi].
  destruct (Z.le_gt_cases (Zpos (digits2_pos p)) n) as [ | Hgt ]; trivial.
  assert (2 ^ n <= 2 ^ (Zpos (digits2_pos p) - 1)) by (apply Z.pow_le_mono_r; lia).
  lia.
Qed.

Lemma digits2_mul_pow2 (p : positive) (k : Z) :
  0 <= k -> Zdigits2 (Zpos p * 2 ^ k) = Zpos (digits2_pos p) + k.
Proof.
  intros Hk. pose proof (digits2_pos_bounds p) as [Dlo Dhi].
  assert (Hpow : 0 < 2 ^ k) by (apply Z.pow_pos_nonneg; lia).
  destruct (Zpos p * 2 ^ k) as [ | q | q ] eqn:Hq; try lia.
  cbn [Zdigits2]. apply digits2_pos_unique. rewrite <- Hq.
  replace (Zpos (digits2_pos p) + k - 1) with (Zpos (digits2_pos p) - 1 + k) by lia.
  rewrite !Z.pow_add_r by lia. nia.
Qed.

(** ** Shifting out zero bits *)

Lemma shr_1_double (w : Z) :
  0 < w -> shr_1 (Build_shr_record (w * 2) false false) = Build_shr_record w false false.
Proof. intros Hw. destruct w; try lia. rewrite Z.mul_comm. reflexivity. Qed.

Lemma iter_pos_shr_1_exact (k : positive) : forall z : Z, 0 < z ->
  SpecFloat.iter_pos shr_1 k (Build_shr_record (z * 2 ^ Zpos k) false false)
  = Build_shr_record z false false.
Proof.
  induction k as [k IH | k IH | ]; intros z Hz; cbn [SpecFloat.iter_pos].
  - assert (Hpow : 0 < 2 ^ Zpos k) by (apply Z.pow_pos_nonneg; lia).
    replace (z * 2 ^ Zpos k~1) with (z * 2 ^ Zpos k * 2 ^ Zpos k * 2).
    + rewrite shr_1_double, IH, IH by nia. reflexivity.
    + rewrite (Pos2Z.inj_xI k).
      replace (2 * Zpos k + 1) with (Zpos k + Zpos k + 1) by lia.
      rewrite !Z.pow_add_r by lia. change (2 ^ 1) with 2. ring.
  - assert (Hpow : 0 < 2 ^ Zpos k) by (apply Z.pow_pos_nonneg; lia).
    replace (z * 2 ^ Zpos k~0) with (z * 2 ^ Zpos k * 2 ^ Zpos k).
    + rewrite IH, IH by nia. reflexivity.
    + rewrite (Pos2Z.inj_xO k).
      replace (2 * Zpos k) with (Zpos k + Zpos k) by lia.
      rewrite Z.pow_add_r by lia. ring.
  - change (2 ^ 1) with 2. now apply shr_1_double.
Qed.

Lemma shr_exact (z e k : Z) :
  0 < z -> 0 <= k ->
  shr (Build_shr_record (z * 2 ^ k) false false) e k
  = (Build_shr_record z false false, e + k).
Proof.
  intros Hz Hk. destruct k as [ | k | k ]; try lia; cbn [shr].
  - now rewrite Z.mul_1_r, Z.add_0_r.
  - now rewrite iter_pos_shr_1_exact.
Qed.

(** ** Rounding that is exact, in any binary format *)

Section Rounding.

Variables prec emax : Z.

(** A number that fits the format is not changed by rounding, however many
    zero bits pad its mantissa. *)
Lemma binary_round_aux_exact (s : bool) (m : positive) (e k : Z) :
  0 <= k -> bounded prec emax m e = true ->
  binary_round_aux prec emax s (Zpos m * 2 ^ k) (e - k) loc_Exact
  = S754_finite s m e.
Proof.
  intros Hk Hb. unfold bounded, canonical_mantissa in Hb.
  apply andb_true_iff in Hb as [Hc He].
  apply Z.eqb_eq in Hc. apply Z.leb_le in He.
  unfold binary_round_aux, shr_fexp.
  rewrite digits2_mul_pow2 by lia.
  replace (Zpos (digits2_pos m) + k + (e - k)) with (Zpos (digits2_pos m) + e) by lia.
  rewrite Hc. replace (e - (e - k)) with k by lia.
  cbn [shr_record_of_loc]. rewrite shr_exact by lia.
  cbn [shr_m loc_of_shr_record round_nearest_even Zdigits2].
  replace (e - k + k) with e by lia.
  rewrite Hc, Z.sub_diag. cbn [shr shr_m].
  apply Z.leb_le in He. now rewrite He.
Qed.

(** Rounding a number of at most [prec] digits that is not too small for a
    normal number pads its mantissa to [prec] digits. *)
Lemma binary_round_normal (s : bool) (p : positive) (e d : Z) :
  d = prec - Zpos (digits2_pos p) -> 0 <= d ->
  emin prec emax <= e - d -> e - d <= emax - prec ->
  let q := Z.to_pos (Zpos p * 2 ^ d) in
  binary_round prec emax s p e = S754_finite s q (e - d)
  /\ bounded prec emax q (e - d) = true.
Proof.
  intros Hd Hd0 Hmin Hmax q.
  assert (Hpow : 0 < 2 ^ d) by (apply Z.pow_pos_nonneg; lia).
  assert (Hq : Zpos q = Zpos p * 2 ^ d) by (unfold q; rewrite Z2Pos.id; nia).
  assert (Hdq : Zpos (digits2_pos q) = prec).
  { change (Zpos (digits2_pos q)) with (Zdigits2 (Zpos q)).
    rewrite Hq, digits2_mul_pow2 by lia. lia. }
  assert (Hb : bounded prec emax q (e - d) = true).
  { unfold bounded, canonical_mantissa, fexp. rewrite Hdq.
    apply andb_true_iff. split; [ apply Z.eqb_eq | apply Z.leb_le ]; lia. }
  split; trivial.
  unfold binary_round, shl_align, fexp.
  replace (Z.max (Zpos (digits2_pos p) + e - prec) (emin prec emax)) with (e - d) by lia.
  replace (e - d - e) with (- d) by lia.
  destruct d as [ | d' | d' ]; try lia.
  - replace q with p in * by lia.
    rewrite <- (binary_round_aux_exact s p (e - 0) 0) by (trivial; lia).
    f_equal; lia.
  - assert (Hiter : Zpos (Pos.iter xO p d') = Zpos q).
    { rewrite Hq, <- Z.shiftl_mul_pow2 by lia. cbn [Z.shiftl].
      apply (Pos.iter_swap_gen _ _ Zpos xO (Z.mul 2)). reflexivity. }
    change (- Z.pos d') with (Z.neg d'). cbv beta iota. rewrite Hiter.
    rewrite <- (binary_round_aux_exact s q (e - Zpos d') 0) by (trivial; lia).
    f_equal; lia.
Qed.

End Rounding.

(** ** Scaling by 1.0 *)

Lemma double_of_int_pos (p : positive) :
  Zpos p < 2 ^ 53 ->
  let d := 53 - Zpos (digits2_pos p) in
  let q := Z.to_pos (Zpos p * 2 ^ d) in
  0 <= d /\ (forall s, binary_round 53 1024 s p 0 = S754_finite s q (- d))
  /\ bounded 53 1024 q (- d) = true.
Proof.
  intros Hp d q. pose proof (digits2_pos_le p 53 Hp) as Hle.
  pose proof (Pos2Z.is_pos (digits2_pos p)) as Hdig.
  assert (Hd : 0 <= d <= 52) by (unfold d; lia).
  split; [ lia | ].
  assert (Hn : forall s, binary_round 53 1024 s p 0 = S754_finite s q (0 - d)
               /\ bounded 53 1024 q (0 - d) = true).
  { intros s. apply binary_round_normal; unfold emin; lia. }
  change (0 - d) with (- d) in Hn.
  split; [ intros s; apply (Hn s) | apply (Hn false) ].
Qed.

Lemma double_mul_1_0 (s : bool) (m : positive) (e : Z) :
  bounded 53 1024 m e = true ->
  double_mul (S754_finite s m e) double_1_0 = S754_finite s m e.
Proof.
  intros Hb. unfold double_mul, double_1_0. cbn [SFmul].
  rewrite xorb_false_r, Pos2Z.inj_mul.
  change (Zpos 4503599627370496) with (2 ^ 52).
  change (e + -52) with (e - 52).
  now apply binary_round_aux_exact.
Qed.

Lemma double_trunc_padded (s : bool) (z d : Z) :
  0 < z -> 0 <= d ->
  double_trunc (S754_finite s (Z.to_pos (z * 2 ^ d)) (- d)) = Some (cond_Zopp s z).
Proof.
  intros Hz Hd. assert (Hpow : 0 < 2 ^ d) by (apply Z.pow_pos_nonneg; lia).
  cbn [double_trunc]. rewrite Z2Pos.id by nia.
  rewrite Z.shiftl_div_pow2, Z.opp_involutive, Z.div_mul by lia. reflexivity.
Qed.

(** Converting an integer of at most 53 bits to [double], multiplying by
    [1.0] and taking the integral part gives the integer back. *)
Lemma scale_by_1_0_exact (z : Z) :
  - 2 ^ 53 < z < 2 ^ 53 ->
  double_trunc (double_mul (double_of_int z) double_1_0) = Some z.
Proof.
  intros Hz. unfold double_of_int.
  destruct z as [ | p | p ]; cbn [binary_normalize]; [ reflexivity | | ];
    destruct (double_of_int_pos p) as (Hd & Hr & Hb); try lia;
    rewrite Hr, double_mul_1_0 by trivial;
    now rewrite double_trunc_padded.
Qed.

Lemma int_of_double_in_range (lo hi : Z) (d : double) (t : Z) :
  double_trunc d = Some t -> lo <= t <= hi -> int_of_double lo hi d = Some t.
Proof.
  intros Ht Hr. unfold int_of_double. rewrite Ht. cbn [mbind option_bind].
  destruct (Z.leb_spec lo t), (Z.leb_spec t hi); try lia. reflexivity.
Qed.

(** ** binary32 numbers *)

(** A binary32 number promoted to [double], multiplied by [1.0] and
    converted back is the number itself. *)
Lemma float_through_double (s : bool) (m : positive) (e : Z) :
  bounded 24 128 m e = true ->
  float_of_double (double_mul (double_of_float (S754_finite s m e)) double_1_0)
  = S754_finite s m e.
Proof.
  intros Hb. pose proof Hb as Hb'. unfold bounded, canonical_mantissa, fexp, emin in Hb'.
  apply andb_true_iff in Hb' as [Hc He].
  apply Z.eqb_eq in Hc. apply Z.leb_le in He.
  pose proof (Pos2Z.is_pos (digits2_pos m)) as Hdig.
  set (d := 53 - Zpos (digits2_pos m)).
  destruct (binary_round_normal 53 1024 s m e d) as [Hr Hbq];
    try (unfold d, emin; lia).
  cbn [double_of_float]. rewrite Hr, double_mul_1_0 by trivial.
  cbn [float_of_double]. unfold binary_round, shl_align.
  assert (Hpow : 0 < 2 ^ d) by (apply Z.pow_pos_nonneg; unfold d; lia).
  assert (Hq : Zpos (Z.to_pos (Zpos m * 2 ^ d)) = Zpos m * 2 ^ d)
    by (rewrite Z2Pos.id; nia).
  change (Zpos (digits2_pos (Z.to_pos (Zpos m * 2 ^ d))))
    with (Zdigits2 (Zpos (Z.to_pos (Zpos m * 2 ^ d)))).
  rewrite Hq, digits2_mul_pow2 by (unfold d; lia).
  replace (fexp 24 128 (Zpos (digits2_pos m) + d + (e - d))) with e
    by (unfold fexp, emin; lia).
  replace (e - (e - d)) with d by lia.
  destruct d as [ | d' | d' ] eqn:Hd; try lia; cbv beta iota; rewrite Hq;
    apply binary_round_aux_exact; trivial; lia.
Qed.

(** Every bit pattern denotes a value of the binary32 format. *)
Lemma float_of_bits_valid (bits : Z) :
  valid_binary 24 128 (float_of_bits bits) = true.
Proof.
  unfold float_of_bits, ieee_of_bits.
  change (2 ^ 23) with 8388608. change (2 ^ 8) with 256.
  change (2 - 2 ^ (8 - 1) - 23) with (- 149). change (2 ^ (8 - 1)) with 128.
  assert (Hf : 0 <= bits mod 8388608 < 8388608) by (apply Z.mod_pos_bound; lia).
  assert (Hx : 0 <= (bits / 8388608) mod 256 < 256) by (apply Z.mod_pos_bound; lia).
  set (frac := bits mod 8388608) in *. set (expo := (bits / 8388608) mod 256) in *.
  destruct (Z.eqb_spec expo 0) as [H0 | H0].
  - destruct frac as [ | m | m ] eqn:Hm; trivial. cbn [valid_binary].
    assert (Hd : Zpos (digits2_pos m) <= 23)
      by (apply digits2_pos_le; change (2 ^ 23) with 8388608; lia).
    pose proof (Pos2Z.is_pos (digits2_pos m)) as Hdig.
    unfold bounded, canonical_mantissa, fexp, emin.
    apply andb_true_iff. split; [ apply Z.eqb_eq | apply Z.leb_le ]; lia.
  - destruct (Z.eqb_spec expo (256 - 1)) as [H255 | H255].
    + destruct (frac =? 0); reflexivity.
    + destruct (frac + 8388608) as [ | m | m ] eqn:Hm; trivial. cbn [valid_binary].
      assert (Hd : Zpos (digits2_pos m) = 24).
      { apply digits2_pos_unique. change (2 ^ (24 - 1)) with 8388608.
        change (2 ^ 24) with 16777216. lia. }
      unfold bounded, canonical_mantissa, fexp, emin. rewrite Hd.
      apply andb_true_iff. split; [ apply Z.eqb_eq | apply Z.leb_le ]; lia.
Qed.

(** Reading a pattern that is not a NaN and writing it back gives the
    pattern. *)
Lemma bits_of_float_of_bits (bits : Z) :
  is_binary32_number bits -> bits_of_float (float_of_bits bits) = bits.
Proof.
  unfold is_binary32_number, bits_of_float, float_of_bits, ieee_of_bits, bits_of_ieee.
  change (2 ^ 32) with 4294967296. change (2 ^ (23 + 8)) with 2147483648.
  change (2 ^ 23) with 8388608. change (2 ^ 8) with 256.
  change (2 - 2 ^ (8 - 1) - 23) with (- 149). change (2 ^ (8 - 1)) with 128.
  intros [Hr Hnan].
  assert (Hf : 0 <= bits mod 8388608 < 8388608) by (apply Z.mod_pos_bound; lia).
  assert (Hx : 0 <= (bits / 8388608) mod 256 < 256) by (apply Z.mod_pos_bound; lia).
  assert (Hs : (if Z.odd (bits / 2147483648) then 2147483648 else 0)
               = bits - ((bits / 8388608) mod 256) * 8388608 - bits mod 8388608).
  { assert (Hq : bits / 2147483648 = 0 \/ bits / 2147483648 = 1) by dlia.
    destruct Hq as [Hq | Hq]; rewrite Hq; cbn [Z.odd]; dlia. }
  set (frac := bits mod 8388608) in *. set (expo := (bits / 8388608) mod 256) in *.
  set (sgn := Z.odd (bits / 2147483648)) in *.
  destruct (Z.eqb_spec expo 0) as [H0 | H0].
  - destruct frac as [ | m | m ] eqn:Hm; try lia.
    destruct (Z.ltb_spec (Zpos m) 8388608); lia.
  - destruct (Z.eqb_spec expo (256 - 1)) as [H255 | H255].
    + rewrite (Hnan H255). cbn [Z.eqb]. lia.
    + destruct (frac + 8388608) as [ | m | m ] eqn:Hm; try lia.
      destruct (Z.ltb_spec (Zpos m) 8388608); lia.
Qed.

(** ** The 32-bit reordering cases on two registers *)

Section TwoRegisters.

Variables r0 r1 : Z.
Hypotheses (U0 : is_u16 r0) (U1 : is_u16 r1).

Lemma case_ABCD_bytes :
  case_ABCD [r0; r1] = Some (word_be_bytes r0 ++ word_be_bytes r1).
Proof.
  cbv - [Z.land Z.shiftr Z.div Z.modulo].
  now rewrite !hi_byte, !lo_byte by assumption.
Qed.

Lemma case_CDAB_bytes :
  case_CDAB [r0; r1] = Some (word_be_bytes r1 ++ word_be_bytes r0).
Proof.
  cbv - [Z.land Z.shiftr Z.div Z.modulo].
  now rewrite !hi_byte, !lo_byte by assumption.
Qed.

Lemma case_BADC_bytes :
  case_BADC [r0; r1] = Some [r0 mod 256; r0 / 256; r1 mod 256; r1 / 256].
Proof.
  pose proof (byte_swapped_u16 r0 U0). pose proof (byte_swapped_u16 r1 U1).
  destruct (byte_swapped_hi_lo r0 U0) as [Hh0 Hl0].
  destruct (byte_swapped_hi_lo r1 U1) as [Hh1 Hl1].
  cbv - [Z.land Z.shiftr swap_bytes_16 Z.div Z.modulo].
  rewrite !swap_bytes_16_spec, !hi_byte, !lo_byte by assumption.
  now rewrite Hh0, Hl0, Hh1, Hl1.
Qed.

Lemma case_DCBA_bytes :
  case_DCBA [r0; r1] = Some [r0 mod 256; r0 / 256; r1 mod 256; r1 / 256].
Proof.
  cbv - [Z.land Z.shiftr Z.div Z.modulo].
  now rewrite !hi_byte, !lo_byte by assumption.
Qed.

(** Exchanging the two words and then reversing the four bytes leaves the
    words in place and swaps the bytes inside each: the DCBA case yields the
    bytes of the BADC case. *)
Lemma case_DCBA_is_case_BADC : case_DCBA [r0; r1] = case_BADC [r0; r1].
Proof. now rewrite case_DCBA_bytes, case_BADC_bytes. Qed.

End TwoRegisters.

(** The two words of a bit pattern decode to the pattern. *)
Lemma float_be_words_decoded (bits : Z) :
  0 <= bits < 2 ^ 32 ->
  (bytes ← case_ABCD (float_be_words bits); assemble32 bytes) = Some bits.
Proof.
  change (2 ^ 32) with 4294967296. intros Hr. unfold float_be_words.
  change (2 ^ 16) with 65536.
  assert (H0 : is_u16 (bits / 65536)) by (unfold is_u16; change (2 ^ 16) with 65536; dlia).
  assert (H1 : is_u16 (bits mod 65536)) by (unfold is_u16; change (2 ^ 16) with 65536; dlia).
  rewrite case_ABCD_bytes by assumption.
  unfold word_be_bytes. cbn [mbind option_bind app].
  destruct (u16_bytes _ H0), (u16_bytes _ H1).
  rewrite assemble32_msb_first by trivial. f_equal. unfold msb_first.
  cbn [fold_left]. dlia.
Qed.

(** ** The 64-bit reordering cases on four registers *)

Section FourRegisters.

Variables r0 r1 r2 r3 : Z.
Hypotheses (U0 : is_u16 r0) (U1 : is_u16 r1) (U2 : is_u16 r2) (U3 : is_u16 r3).

(** Each case yields the bytes that the table row of its pattern
    describes. *)
Lemma case64_reordered (p : pattern64) :
  case64 p [r0; r1; r2; r3] = Some (reordered_bytes (table64 p) [r0; r1; r2; r3]).
Proof.
  pose proof (byte_swapped_u16 r0 U0). pose proof (byte_swapped_u16 r1 U1).
  pose proof (byte_swapped_u16 r2 U2). pose proof (byte_swapped_u16 r3 U3).
  destruct p;
    cbv - [Z.land Z.shiftr swap_bytes_16 byte_swapped Z.div Z.modulo];
    rewrite ?swap_bytes_16_spec by assumption;
    rewrite ?hi_byte, ?lo_byte by assumption;
    reflexivity.
Qed.

Lemma reordered_bytes_wf (p : pattern64) :
  length (reordered_bytes (table64 p) [r0; r1; r2; r3]) = 8%nat
  /\ Forall is_u8 (reordered_bytes (table64 p) [r0; r1; r2; r3]).
Proof.
  destruct (u16_bytes _ U0), (u16_bytes _ U1), (u16_bytes _ U2), (u16_bytes _ U3).
  destruct (u16_bytes _ (byte_swapped_u16 r0 U0)), (u16_bytes _ (byte_swapped_u16 r1 U1)),
    (u16_bytes _ (byte_swapped_u16 r2 U2)), (u16_bytes _ (byte_swapped_u16 r3 U3)).
  destruct p; (split; [ reflexivity | ]);
    cbv - [byte_swapped Z.div Z.modulo is_u8];
    repeat (apply Forall_cons_2; [ assumption | ]); apply Forall_nil_2.
Qed.

Lemma raw64_range (p : pattern64) :
  0 <= raw64 (table64 p) [r0; r1; r2; r3] < 2 ^ 64.
Proof.
  destruct (reordered_bytes_wf p) as [Hl Hb]. unfold raw64.
  pose proof (msb_first_bound _ Hb) as Hm. now rewrite Hl in Hm.
Qed.

End FourRegisters.

(** The [switch] of [modbus_convert_int64] runs the case of the pattern. *)
Lemma int64_unsigned_switch (p : pattern64) (registers : list Z) (sf : double) :
  modbus_convert_int64 (Some registers) (int64_unsigned p) sf Addr
  = (bytes ← case64 p registers;
     u64_val ← assemble64 bytes;
     v ← uint64_of_double (double_mul (double_of_int u64_val) sf);
     store_ok (u64 v)).
Proof. destruct p; reflexivity. Qed.

Lemma int64_signed_switch (p : pattern64) (registers : list Z) (sf : double) :
  modbus_convert_int64 (Some registers) (int64_signed p) sf Addr
  = (bytes ← case64 p registers;
     u64_val ← assemble64 bytes;
     v ← int64_of_double (double_mul (double_of_int (int64 u64_val)) sf);
     store_ok (i64 v)).
Proof. destruct p; reflexivity. Qed.

(** ** The decoders with scaling factor 1.0 *)

Lemma int16_unsigned_value (r : Z) (rest : list Z) (swap_bytes : bool) :
  is_u16 r ->
  modbus_convert_int16_unsigned (Some (r :: rest)) swap_bytes double_1_0 Addr
  = store_ok (if swap_bytes then byte_swapped r else r).
Proof.
  intros Hr. unfold modbus_convert_int16_unsigned.
  cbn [lookup list_lookup mbind option_bind].
  assert (Hv : is_u16 (if swap_bytes then swap_bytes_16 r else r)).
  { destruct swap_bytes; trivial.
    rewrite swap_bytes_16_spec by trivial. now apply byte_swapped_u16. }
  unfold uint16_of_double.
  rewrite (int_of_double_in_range _ _ _ (if swap_bytes then swap_bytes_16 r else r)).
  - cbn [mbind option_bind]. destruct swap_bytes; trivial.
    now rewrite swap_bytes_16_spec.
  - apply scale_by_1_0_exact. unfold is_u16 in Hv.
    change (2 ^ 16) with 65536 in Hv. change (2 ^ 53) with 9007199254740992. lia.
  - unfold is_u16 in Hv. lia.
Qed.

Lemma int8_signed_scaled (r : Z) (rest : list Z) (sf : double) :
  modbus_convert_int8_signed (Some (r :: rest)) sf Addr
  = (v ← int8_of_double
           (double_mul (double_of_int (twos_complement 8 (r mod 256))) sf);
     store_ok v).
Proof.
  unfold modbus_convert_int8_signed.
  cbn [lookup list_lookup mbind option_bind]. now rewrite int8_signed_value.
Qed.

(** ** Atomicity of the building blocks *)

Lemma in_error_codes (c : Z) :
  c = MODBUS_CONV_ERR_NULL_PTR \/ c = MODBUS_CONV_ERR_INVALID_TYPE
  \/ c = MODBUS_CONV_ERR_INVALID_BIT \/ c = MODBUS_CONV_ERR_INSUFF_REGS ->
  In c error_codes.
Proof. unfold error_codes. cbn [In]. intuition. Qed.

Lemma atomic_return {A : Type} (c : Z) :
  In c error_codes -> atomic_on_error (@return_ A c).
Proof.
  intros Hc o Ho _. injection Ho as <-. split; [ exact Hc | ].
  split; [ reflexivity | intros before; reflexivity ].
Qed.

(** A store is harmless when the function then returns [MODBUS_CONV_OK]. *)
Lemma atomic_assign_ok {A : Type} (v : A) :
  atomic_on_error (assign v (return_ MODBUS_CONV_OK)).
Proof. intros o Ho Hcode. injection Ho as <-. now contradict Hcode. Qed.

Lemma atomic_bind {A B : Type} (m : option B) (k : B -> option (outcome A)) :
  (forall x, atomic_on_error (k x)) -> atomic_on_error (x ← m; k x).
Proof.
  intros Hk o Ho. destruct m as [x | ]; [ now apply (Hk x) | discriminate ].
Qed.

Lemma atomic_member {A : Type} (m : A -> modbus_value_t)
    (call : option (outcome A)) :
  atomic_on_error call -> atomic_on_error (member m call).
Proof.
  intros Hcall o Ho Hcode. unfold member in Ho.
  destruct call as [o' | ]; [ | discriminate ].
  cbn [mbind option_bind] in Ho. injection Ho as <-. cbn [code] in *.
  destruct (Hcall o' eq_refl Hcode) as (Hin & Hst & _).
  split; [ exact Hin | ].
  split; cbn [stored]; rewrite Hst; [ reflexivity | intros before; reflexivity ].
Qed.

#[local] Hint Resolve atomic_assign_ok atomic_return atomic_member atomic_bind : atomic.
#[local] Hint Extern 1 (In _ error_codes) =>
  apply in_error_codes; tauto : atomic.
#[local] Hint Extern 3 (atomic_on_error (if ?b then _ else _)) =>
  destruct b : atomic.
#[local] Hint Extern 3 (atomic_on_error (match ?x with _ => _ end)) =>
  destruct x : atomic.

Lemma atomic_bit_bool registers bit_pos result :
  atomic_on_error (modbus_convert_bit_bool registers bit_pos result).
Proof. unfold modbus_convert_bit_bool. auto 10 with atomic. Qed.

Lemma atomic_int8_signed registers scaling_factor result :
  atomic_on_error (modbus_convert_int8_signed registers scaling_factor result).
Proof. unfold modbus_convert_int8_signed. auto 10 with atomic. Qed.

Lemma atomic_int8_unsigned registers scaling_factor result :
  atomic_on_error (modbus_convert_int8_unsigned registers scaling_factor result).
Proof. unfold modbus_convert_int8_unsigned. auto 10 with atomic. Qed.

Lemma atomic_int16_signed registers swap_bytes scaling_factor result :
  atomic_on_error
    (modbus_convert_int16_signed registers swap_bytes scaling_factor result).
Proof. unfold modbus_convert_int16_signed. auto 10 with atomic. Qed.

Lemma atomic_int16_unsigned registers swap_bytes scaling_factor result :
  atomic_on_error
    (modbus_convert_int16_unsigned registers swap_bytes scaling_factor result).
Proof. unfold modbus_convert_int16_unsigned. auto 10 with atomic. Qed.

Lemma atomic_int32 registers data_type scaling_factor result :
  atomic_on_error (modbus_convert_int32 registers data_type scaling_factor result).
Proof. unfold modbus_convert_int32. auto 12 with atomic. Qed.

Lemma atomic_int64 registers data_type scaling_factor result :
  atomic_on_error (modbus_convert_int64 registers data_type scaling_factor result).
Proof. unfold modbus_convert_int64. auto 12 with atomic. Qed.

Lemma atomic_float32 registers data_type scaling_factor result :
  atomic_on_error (modbus_convert_float32 registers data_type scaling_factor result).
Proof. unfold modbus_convert_float32. auto 12 with atomic. Qed.

Lemma atomic_float64 registers data_type scaling_factor result :
  atomic_on_error (modbus_convert_float64 registers data_type scaling_factor result).
Proof. unfold modbus_convert_float64. auto 12 with atomic. Qed.

#[local] Hint Resolve atomic_bit_bool atomic_int8_signed atomic_int8_unsigned
  atomic_int16_signed atomic_int16_unsigned atomic_int32 atomic_int64
  atomic_float32 atomic_float64 : atomic.

Lemma atomic_convert registers reg_count data_type bit_pos scaling_factor result :
  atomic_on_error
    (modbus_convert registers reg_count data_type bit_pos scaling_factor result).
Proof. unfold modbus_convert. auto 20 with atomic. Qed.

(** * The claims *)

(** C1 (the code differs).  At registers [[0x1234, 0x5678]] the ABCD case
    yields the bytes 12 34 56 78 and the DCBA case the bytes 34 12 78 56,
    which is not their reversal 78 56 34 12.  DCBA therefore decodes
    0x34127856, the value BADC decodes from the same registers, and not
    0x78563412, the value ABCD decodes from the byte-reversed registers
    [[0x7856, 0x3412]]. *)
Theorem C1_DCBA_is_not_reversed_ABCD :
  case_ABCD [0x1234; 0x5678] = Some [0x12; 0x34; 0x56; 0x78]
  /\ case_DCBA [0x1234; 0x5678] = Some [0x34; 0x12; 0x78; 0x56]
  /\ rev [0x12; 0x34; 0x56; 0x78] = [0x78; 0x56; 0x34; 0x12]
  /\ case_DCBA [0x1234; 0x5678] <> Some (rev [0x12; 0x34; 0x56; 0x78])
  /\ modbus_convert_int32 (Some [0x1234; 0x5678]) MODBUS_INT32_UNSIGNED_DCBA
       double_1_0 Addr = store_ok (u32 0x34127856)
  /\ modbus_convert_int32 (Some [0x1234; 0x5678]) MODBUS_INT32_UNSIGNED_BADC
       double_1_0 Addr = store_ok (u32 0x34127856)
  /\ modbus_convert_int32 (Some [0x7856; 0x3412]) MODBUS_INT32_UNSIGNED_ABCD
       double_1_0 Addr = store_ok (u32 0x78563412)
  /\ modbus_convert_int32 (Some [0x1234; 0x5678]) MODBUS_INT32_UNSIGNED_DCBA
       double_1_0 Addr
     <> modbus_convert_int32 (Some [0x7856; 0x3412]) MODBUS_INT32_UNSIGNED_ABCD
          double_1_0 Addr.
Proof.
  split; [ reflexivity | ]. split; [ reflexivity | ]. split; [ reflexivity | ].
  split; [ intros H; vm_compute in H; discriminate H | ].
  split; [ reflexivity | ]. split; [ reflexivity | ]. split; [ reflexivity | ].
  intros H; vm_compute in H; discriminate H.
Qed.

(** C2.  For a register array of 4 words and each of the eight 64-bit
    patterns, [modbus_convert_int64] works on the raw value that section 4.6
    describes: the words selected in the order of the pattern's table row,
    each with its bytes swapped if the row says so, serialized big-endian
    into 8 bytes, the 8 bytes reversed if the row says so, and read most
    significant byte first as an unsigned 64-bit number.  The unsigned
    enumerator scales this value; the signed one scales its two's-complement
    reading. *)
Theorem C2_int64_follows_the_table
    (registers : list Z) (p : pattern64) (scaling_factor : double) :
  length registers = 4%nat -> Forall is_u16 registers ->
  let raw := raw64 (table64 p) registers in
  0 <= raw < 2 ^ 64
  /\ modbus_convert_int64 (Some registers) (int64_unsigned p) scaling_factor Addr
     = (v ← uint64_of_double (double_mul (double_of_int raw) scaling_factor);
        store_ok (u64 v))
  /\ modbus_convert_int64 (Some registers) (int64_signed p) scaling_factor Addr
     = (v ← int64_of_double
              (double_mul (double_of_int (twos_complement 64 raw)) scaling_factor);
        store_ok (i64 v)).
Proof.
  intros Hlen Hregs raw.
  destruct registers as [ | r0 [ | r1 [ | r2 [ | r3 [ | ] ] ] ] ]; try discriminate.
  repeat match goal with H : Forall _ (_ :: _) |- _ => inversion_clear H end.
  destruct (reordered_bytes_wf r0 r1 r2 r3) with (p := p) as [Hl Hb]; trivial.
  assert (Hraw : 0 <= raw < 2 ^ 64) by now apply raw64_range.
  split; trivial.
  rewrite int64_unsigned_switch, int64_signed_switch, case64_reordered by trivial.
  cbn [mbind option_bind]. rewrite assemble64_bytes by trivial.
  cbn [mbind option_bind]. fold (raw64 (table64 p) [r0; r1; r2; r3]). fold raw.
  now rewrite int64_twos_complement.
Qed.

Lemma C2_int64_follows_the_table_witness :
  modbus_convert_int64 (Some [0x4142; 0x4344; 0x4546; 0x4748])
    MODBUS_INT64_UNSIGNED_CDABGHEF double_1_0 Addr
  = (v ← uint64_of_double (double_mul (double_of_int 0x4344414247484546) double_1_0);
     store_ok (u64 v)).
Proof.
  assert (Hregs : Forall is_u16 [0x4142; 0x4344; 0x4546; 0x4748])
    by (repeat (apply Forall_cons_2; [ unfold is_u16; lia | ]); apply Forall_nil_2).
  exact (proj1 (proj2 (C2_int64_follows_the_table
           [0x4142; 0x4344; 0x4546; 0x4748] CDABGHEF double_1_0 eq_refl Hregs))).
Defined.

(** C3.  Registers [[0x0001, 0x0000]] decoded as unsigned 32-bit CDAB with
    scaling factor 2.0: the call succeeds and stores 2, directly and through
    the generic entry point.  On any two registers CDAB puts the second word
    first and the first word second, each word big-endian; here the bytes
    are 00 00 00 01, the raw value is 1, and 1 * 2.0 truncates to 2. *)
Theorem C3_uint32_CDAB_scaled_by_two :
  (forall r0 r1 : Z, is_u16 r0 -> is_u16 r1 ->
     case_CDAB [r0; r1] = Some (word_be_bytes r1 ++ word_be_bytes r0))
  /\ case_CDAB [0x0001; 0x0000] = Some [0; 0; 0; 1]
  /\ assemble32 [0; 0; 0; 1] = Some 1
  /\ uint32_of_double (double_mul (double_of_int 1) double_2_0) = Some 2
  /\ modbus_convert_int32 (Some [0x0001; 0x0000]) MODBUS_INT32_UNSIGNED_CDAB
       double_2_0 Addr = store_ok (u32 2)
  /\ forall bit_pos : Z,
       modbus_convert (Some [0x0001; 0x0000]) 2 MODBUS_INT32_UNSIGNED_CDAB
         bit_pos double_2_0 Addr = store_ok (u32 2).
Proof.
  split; [ exact case_CDAB_bytes | ].
  split; [ reflexivity | ]. split; [ reflexivity | ]. split; [ reflexivity | ].
  split; [ reflexivity | intros bit_pos; reflexivity ].
Qed.

Lemma C3_uint32_CDAB_scaled_by_two_witness :
  case_CDAB [0x1234; 0x5678] = Some [0x56; 0x78; 0x12; 0x34].
Proof.
  apply (proj1 C3_uint32_CDAB_scaled_by_two 0x1234 0x5678); unfold is_u16; lia.
Defined.

(** C4.  The signed 8-bit decoder takes the low byte of the first register,
    reads it in two's complement over 8 bits (a byte above 127 is negative),
    multiplies by the scaling factor and narrows the product to 8 bits; with
    scaling factor 1.0 the result is the two's-complement value itself, and
    registers [[0x00FF]] decode to -1, also through the generic entry
    point. *)
Theorem C4_int8_signed_low_byte (r : Z) (rest : list Z) (scaling_factor : double) :
  modbus_convert_int8_signed (Some (r :: rest)) scaling_factor Addr
  = (v ← int8_of_double
           (double_mul (double_of_int (twos_complement 8 (r mod 256))) scaling_factor);
     store_ok v)
  /\ modbus_convert_int8_signed (Some (r :: rest)) double_1_0 Addr
     = store_ok (twos_complement 8 (r mod 256))
  /\ twos_complement 8 (0x00FF mod 256) = -1
  /\ modbus_convert_int8_signed (Some [0x00FF]) double_1_0 Addr = store_ok (-1)
  /\ forall bit_pos : Z,
       modbus_convert (Some [0x00FF]) 1 MODBUS_INT8_SIGNED bit_pos double_1_0 Addr
       = store_ok (i8 (-1)).
Proof.
  split; [ apply int8_signed_scaled | ].
  split; [ | split; [ reflexivity | split; [ reflexivity | intros; reflexivity ] ] ].
  rewrite int8_signed_scaled. unfold int8_of_double.
  assert (Hb : 0 <= r mod 256 < 256) by (apply Z.mod_pos_bound; lia).
  pose proof (twos_complement_8_range _ Hb) as Hr.
  rewrite (int_of_double_in_range _ _ _ (twos_complement 8 (r mod 256))).
  - reflexivity.
  - apply scale_by_1_0_exact. change (2 ^ 53) with 9007199254740992. lia.
  - change (- 2 ^ 7) with (- 128). change (2 ^ 7 - 1) with 127. lia.
Qed.

(** C5.  With scaling factor 1.0 the unsigned 16-bit decoder returns the
    input word itself for the AB order (no swap) and the word with its two
    bytes exchanged for the BA order (swap), both when called directly and
    through the generic entry point. *)
Theorem C5_int16_unsigned_scale_one (r : Z) (rest : list Z) :
  is_u16 r ->
  modbus_convert_int16_unsigned (Some (r :: rest)) false double_1_0 Addr
  = store_ok r
  /\ modbus_convert_int16_unsigned (Some (r :: rest)) true double_1_0 Addr
     = store_ok (byte_swapped r)
  /\ forall reg_count bit_pos : Z, reg_count <> 0 ->
       modbus_convert (Some (r :: rest)) reg_count MODBUS_INT16_UNSIGNED_AB
         bit_pos double_1_0 Addr = store_ok (u16 r)
       /\ modbus_convert (Some (r :: rest)) reg_count MODBUS_INT16_UNSIGNED_BA
            bit_pos double_1_0 Addr = store_ok (u16 (byte_swapped r)).
Proof.
  intros Hr.
  pose proof (int16_unsigned_value r rest false Hr) as Hab.
  pose proof (int16_unsigned_value r rest true Hr) as Hba.
  cbv iota in Hab, Hba.
  split; [ exact Hab | ]. split; [ exact Hba | ].
  intros reg_count bit_pos Hcount. apply Z.eqb_neq in Hcount.
  unfold modbus_convert. rewrite Hcount.
  split; cbv beta iota delta [Z.eqb MODBUS_INT16_UNSIGNED_AB MODBUS_INT16_UNSIGNED_BA
    MODBUS_BIT_BOOLEAN MODBUS_INT8_SIGNED MODBUS_INT8_UNSIGNED
    MODBUS_INT16_SIGNED_AB MODBUS_INT16_SIGNED_BA Pos.eqb];
    [ now rewrite Hab | now rewrite Hba ].
Qed.

Lemma C5_int16_unsigned_scale_one_witness :
  modbus_convert_int16_unsigned (Some [0x1234]) false double_1_0 Addr
  = store_ok 0x1234
  /\ modbus_convert_int16_unsigned (Some [0x1234]) true double_1_0 Addr
     = store_ok 0x3412.
Proof.
  assert (H : is_u16 0x1234) by (unfold is_u16; lia).
  destruct (C5_int16_unsigned_scale_one 0x1234 [] H) as (Hab & Hba & _).
  split; [ exact Hab | exact Hba ].
Defined.

(** C6.  Round trip: the bit pattern of any binary32 number (any pattern
    that is not a NaN), split into two big-endian 16-bit words and decoded
    with the float32 ABCD pattern and scaling factor 1.0, gives back the
    number with that very bit pattern. *)
Theorem C6_float32_ABCD_round_trip (bits : Z) :
  is_binary32_number bits ->
  modbus_convert_float32 (Some (float_be_words bits)) MODBUS_IEEE_FLOAT32_ABCD
    double_1_0 Addr = store_ok (float_of_bits bits)
  /\ bits_of_float (float_of_bits bits) = bits.
Proof.
  intros Hbits. split; [ | now apply bits_of_float_of_bits ].
  destruct Hbits as [Hr _].
  pose proof (float_be_words_decoded bits Hr) as Hdec.
  unfold modbus_convert_float32.
  cbn [switch existsb Z.eqb MODBUS_IEEE_FLOAT32_ABCD Pos.eqb orb].
  destruct (case_ABCD (float_be_words bits)) as [bytes | ]; [ | discriminate ].
  cbn [mbind option_bind] in *. rewrite Hdec. cbn [mbind option_bind].
  unfold store_ok. do 3 f_equal.
  pose proof (float_of_bits_valid bits) as Hv.
  destruct (float_of_bits bits) as [s | s | | s m e]; try reflexivity.
  - cbn. now destruct s.
  - cbn. now destruct s.
  - now apply float_through_double.
Qed.

(** The scenario of the specification: registers [[0x3F80, 0x0000]] decode
    to 1.0, whose bit pattern is 0x3F800000. *)
Lemma C6_float32_ABCD_round_trip_witness :
  modbus_convert_float32 (Some [0x3F80; 0x0000]) MODBUS_IEEE_FLOAT32_ABCD
    double_1_0 Addr = store_ok (S754_finite false 8388608 (-23))
  /\ bits_of_float (S754_finite false 8388608 (-23)) = 0x3F800000.
Proof.
  assert (H : is_binary32_number 0x3F800000).
  { unfold is_binary32_number. split; [ lia | ]. intros Hx. vm_compute in Hx.
    discriminate Hx. }
  exact (C6_float32_ABCD_round_trip 0x3F800000 H).
Defined.

(** C7.  Boolean decoding of a non-null register array (of at least the one
    register it reads) through a non-null result pointer: for every bit
    position from 0 to 15 the call succeeds and stores bit [bit_pos] of the
    first register, whatever the scaling factor passed to the generic entry
    point; for every bit position above 15 it fails with
    [MODBUS_CONV_ERR_INVALID_BIT] and stores nothing. *)
Theorem C7_bit_bool_positions (r : Z) (rest : list Z) (bit_pos : Z) :
  (0 <= bit_pos <= 15 ->
     modbus_convert_bit_bool (Some (r :: rest)) bit_pos Addr
     = store_ok (Z.testbit r bit_pos)
     /\ forall (reg_count : Z) (scaling_factor : double), reg_count <> 0 ->
          modbus_convert (Some (r :: rest)) reg_count MODBUS_BIT_BOOLEAN bit_pos
            scaling_factor Addr = store_ok (bool_val (Z.testbit r bit_pos)))
  /\ (bit_pos > 15 ->
        forall registers : list Z,
          modbus_convert_bit_bool (Some registers) bit_pos Addr
          = fail MODBUS_CONV_ERR_INVALID_BIT
          /\ forall (reg_count : Z) (scaling_factor : double), reg_count <> 0 ->
               modbus_convert (Some registers) reg_count MODBUS_BIT_BOOLEAN bit_pos
                 scaling_factor Addr = fail MODBUS_CONV_ERR_INVALID_BIT).
Proof.
  split.
  - intros Hpos.
    assert (Hbit : modbus_convert_bit_bool (Some (r :: rest)) bit_pos Addr
                   = store_ok (Z.testbit r bit_pos)).
    { unfold modbus_convert_bit_bool.
      destruct (Z.gtb_spec bit_pos 15) as [Hgt | _]; [ lia | ].
      cbn [lookup list_lookup mbind option_bind].
      now rewrite testbit_shift_mask. }
    split; trivial. intros reg_count scaling_factor Hcount.
    unfold modbus_convert. apply Z.eqb_neq in Hcount. rewrite Hcount.
    cbn [Z.eqb MODBUS_BIT_BOOLEAN]. now rewrite Hbit.
  - intros Hpos registers.
    assert (Hbit : modbus_convert_bit_bool (Some registers) bit_pos Addr
                   = fail MODBUS_CONV_ERR_INVALID_BIT).
    { unfold modbus_convert_bit_bool.
      destruct (Z.gtb_spec bit_pos 15) as [_ | Hle]; [ reflexivity | lia ]. }
    split; trivial. intros reg_count scaling_factor Hcount.
    unfold modbus_convert. apply Z.eqb_neq in Hcount. rewrite Hcount.
    cbn [Z.eqb MODBUS_BIT_BOOLEAN]. now rewrite Hbit.
Qed.

Lemma C7_bit_bool_positions_witness :
  modbus_convert_bit_bool (Some [0x8001]) 0 Addr = store_ok true
  /\ modbus_convert_bit_bool (Some [0x8001]) 15 Addr = store_ok true
  /\ modbus_convert_bit_bool (Some [0x8001]) 16 Addr
     = fail MODBUS_CONV_ERR_INVALID_BIT.
Proof.
  split; [ | split ].
  - apply (C7_bit_bool_positions 0x8001 [] 0). lia.
  - apply (C7_bit_bool_positions 0x8001 [] 15). lia.
  - apply (C7_bit_bool_positions 0x8001 [] 16). lia.
Defined.

(** C8.  The generic entry point called with non-null [registers] and
    [result] and a register count of zero fails with
    [MODBUS_CONV_ERR_INSUFF_REGS] and stores nothing, for every data type
    tag, bit position and scaling factor. *)
Theorem C8_zero_count_insufficient_registers
    (registers : list Z) (data_type bit_pos : Z) (scaling_factor : double) :
  modbus_convert (Some registers) 0 data_type bit_pos scaling_factor Addr
  = fail MODBUS_CONV_ERR_INSUFF_REGS.
Proof. reflexivity. Qed.

(** C9.  Atomicity on error.  Whenever the generic entry point or one of
    the nine specialized decoders returns a code other than
    [MODBUS_CONV_OK], the code is one of NullPointer, InvalidType,
    InvalidBitPosition and InsufficientRegisters, and nothing was stored
    through [result]: the caller's result object holds what it held before
    the call. *)
Theorem C9_errors_leave_result_untouched
    (registers : option (list Z)) (reg_count data_type bit_pos : Z)
    (swap_bytes : bool) (scaling_factor : double) (result : out_ptr) :
  atomic_on_error
    (modbus_convert registers reg_count data_type bit_pos scaling_factor result)
  /\ atomic_on_error (modbus_convert_bit_bool registers bit_pos result)
  /\ atomic_on_error (modbus_convert_int8_signed registers scaling_factor result)
  /\ atomic_on_error (modbus_convert_int8_unsigned registers scaling_factor result)
  /\ atomic_on_error
       (modbus_convert_int16_signed registers swap_bytes scaling_factor result)
  /\ atomic_on_error
       (modbus_convert_int16_unsigned registers swap_bytes scaling_factor result)
  /\ atomic_on_error (modbus_convert_int32 registers data_type scaling_factor result)
  /\ atomic_on_error (modbus_convert_int64 registers data_type scaling_factor result)
  /\ atomic_on_error (modbus_convert_float32 registers data_type scaling_factor result)
  /\ atomic_on_error (modbus_convert_float64 registers data_type scaling_factor result).
Proof.
  split; [ apply atomic_convert | ].
  split; [ apply atomic_bit_bool | ].
  split; [ apply atomic_int8_signed | ].
  split; [ apply atomic_int8_unsigned | ].
  split; [ apply atomic_int16_signed | ].
  split; [ apply atomic_int16_unsigned | ].
  split; [ apply atomic_int32 | ].
  split; [ apply atomic_int64 | ].
  split; [ apply atomic_float32 | apply atomic_float64 ].
Qed.

(** Two error returns: bit position 16 through the generic entry point, and
    a boolean tag passed to the 32-bit decoder. *)
Lemma C9_errors_leave_result_untouched_witness :
  result_untouched
    (Returns MODBUS_CONV_ERR_INVALID_BIT (None : option modbus_value_t))
  /\ result_untouched
       (Returns MODBUS_CONV_ERR_INVALID_TYPE (None : option modbus_value_t)).
Proof.
  split.
  - refine (proj2 (proj1 (C9_errors_leave_result_untouched
              (Some [0x0001]) 1 MODBUS_BIT_BOOLEAN 16 false double_1_0 Addr)
              _ eq_refl _)).
    cbn [code]. unfold MODBUS_CONV_ERR_INVALID_BIT, MODBUS_CONV_OK. lia.
  - refine (proj2 (proj1 (proj2 (proj2 (proj2 (proj2 (proj2 (proj2
              (C9_errors_leave_result_untouched
                 (Some [0x0001; 0x0002]) 2 MODBUS_BIT_BOOLEAN 0 false double_1_0 Addr)))))))
              _ eq_refl _)).
    cbn [code]. unfold MODBUS_CONV_ERR_INVALID_TYPE, MODBUS_CONV_OK. lia.
Defined.

(** C10.  The enumerators HGFEDCBA and GHEFCDAB are duplicates: for every
    register array, scaling factor and result pointer, decoding with one
    gives what decoding with the other gives, for signed 64-bit, unsigned
    64-bit and float64, called directly or through the generic entry point.
    Both cases produce the same bytes, and on a 4-word array these are the
    words in reversed order, serialized big-endian, then reversed as a
    whole. *)
Theorem C10_HGFEDCBA_and_GHEFCDAB_coincide
    (registers : option (list Z)) (scaling_factor : double) (result : out_ptr) :
  modbus_convert_int64 registers MODBUS_INT64_SIGNED_HGFEDCBA scaling_factor result
  = modbus_convert_int64 registers MODBUS_INT64_SIGNED_GHEFCDAB scaling_factor result
  /\ modbus_convert_int64 registers MODBUS_INT64_UNSIGNED_HGFEDCBA scaling_factor result
     = modbus_convert_int64 registers MODBUS_INT64_UNSIGNED_GHEFCDAB scaling_factor result
  /\ modbus_convert_float64 registers MODBUS_IEEE_FLOAT64_HGFEDCBA scaling_factor result
     = modbus_convert_float64 registers MODBUS_IEEE_FLOAT64_GHEFCDAB scaling_factor result
  /\ (forall reg_count bit_pos : Z,
        modbus_convert registers reg_count MODBUS_INT64_SIGNED_HGFEDCBA bit_pos
          scaling_factor result
        = modbus_convert registers reg_count MODBUS_INT64_SIGNED_GHEFCDAB bit_pos
            scaling_factor result
        /\ modbus_convert registers reg_count MODBUS_INT64_UNSIGNED_HGFEDCBA bit_pos
             scaling_factor result
           = modbus_convert registers reg_count MODBUS_INT64_UNSIGNED_GHEFCDAB bit_pos
               scaling_factor result
        /\ modbus_convert registers reg_count MODBUS_IEEE_FLOAT64_HGFEDCBA bit_pos
             scaling_factor result
           = modbus_convert registers reg_count MODBUS_IEEE_FLOAT64_GHEFCDAB bit_pos
               scaling_factor result)
  /\ (forall regs : list Z, case_HGFEDCBA regs = case_GHEFCDAB regs)
  /\ (forall r0 r1 r2 r3 : Z,
        is_u16 r0 -> is_u16 r1 -> is_u16 r2 -> is_u16 r3 ->
        case_HGFEDCBA [r0; r1; r2; r3]
        = Some (rev (concat (map word_be_bytes [r3; r2; r1; r0])))).
Proof.
  split; [ destruct registers, result; reflexivity | ].
  split; [ destruct registers, result; reflexivity | ].
  split; [ destruct registers, result; reflexivity | ].
  split.
  { intros reg_count bit_pos.
    destruct registers, result, (reg_count =? 0) eqn:Hcount;
      unfold modbus_convert; rewrite ?Hcount; repeat split; reflexivity. }
  split; [ reflexivity | ].
  intros r0 r1 r2 r3 U0 U1 U2 U3.
  exact (case64_reordered r0 r1 r2 r3 U0 U1 U2 U3 HGFEDCBA).
Qed.

Lemma C10_HGFEDCBA_and_GHEFCDAB_coincide_witness :
  case_HGFEDCBA [0x4142; 0x4344; 0x4546; 0x4748]
  = Some (rev (concat (map word_be_bytes [0x4748; 0x4546; 0x4344; 0x4142]))).
Proof.
  apply (C10_HGFEDCBA_and_GHEFCDAB_coincide None double_1_0 NULL);
    unfold is_u16; lia.
Defined.

(** * Further properties of the code *)

(** ** The loops of the helpers *)

Lemma store_middle (pre post : list Z) (x v : Z) :
  store (length pre) v (pre ++ x :: post) = Some (pre ++ v :: post).
Proof.
  unfold store. rewrite length_app. cbn [length].
  destruct (Nat.ltb_spec (length pre) (length pre + S (length post))); [ | lia ].
  rewrite insert_app_r_alt, Nat.sub_diag by lia. reflexivity.
Qed.

Lemma store_out_of_range (i : nat) (v : Z) (a : list Z) :
  (length a <= i)%nat -> store i v a = None.
Proof.
  intros Hi. unfold store. destruct (Nat.ltb_spec i (length a)); [ lia | reflexivity ].
Qed.

Lemma store_length (i : nat) (v : Z) (a a' : list Z) :
  store i v a = Some a' -> length a' = length a.
Proof.
  unfold store. destruct (i <? length a)%nat; [ | discriminate ].
  intros [= <-]. apply length_insert.
Qed.

(** The swap loop, started with [length pre] bytes already exchanged at
    each end of the part [pre ++ mid ++ ...] it works on, reverses [mid]. *)
Lemma bytes_reverse_loop_spec (n : nat) :
  forall (pre mid post : list Z) (len : nat),
    len = (length pre + length mid + length pre)%nat ->
    n = (length mid / 2)%nat ->
    bytes_reverse_loop len n (length pre) (pre ++ mid ++ post)
    = Some (pre ++ rev mid ++ post).
Proof.
  induction n as [ | n IH ]; intros pre mid post len Hlen Hn.
  - cbn [bytes_reverse_loop].
    destruct mid as [ | x [ | y mid ] ]; [ reflexivity | reflexivity | ].
    cbn [length] in Hn.
    replace (S (S (length mid))) with (length mid + 1 * 2)%nat in Hn by lia.
    rewrite Nat.div_add in Hn by lia. lia.
  - destruct mid as [ | x mid ]; [ discriminate | ].
    destruct (exists_last (l := mid)) as (mid' & y & ->).
    { intros ->. discriminate. }
    cbn [length] in Hlen, Hn. rewrite length_app in Hlen, Hn. cbn [length] in Hlen, Hn.
    assert (Hn' : n = (length mid' / 2)%nat).
    { replace (S (length mid' + 1)) with (length mid' + 1 * 2)%nat in Hn by lia.
      rewrite Nat.div_add in Hn by lia. lia. }
    cbn [bytes_reverse_loop].
    replace (len - 1 - length pre)%nat with (length (pre ++ x :: mid')).
    2:{ rewrite length_app. cbn [length]. lia. }
    replace (pre ++ (x :: mid' ++ [y]) ++ post)
      with ((pre ++ x :: mid') ++ y :: post)
      by (rewrite <- !app_assoc; cbn [app]; rewrite <- app_assoc; reflexivity).
    rewrite (lookup_app_l (pre ++ x :: mid') _ (length pre)),
      (list_lookup_middle pre mid' x)
      by (trivial; rewrite length_app; cbn [length]; lia).
    rewrite (list_lookup_middle (pre ++ x :: mid') post y) by trivial.
    cbn [mbind option_bind].
    rewrite <- (app_assoc pre). cbn [app]. rewrite store_middle.
    cbn [mbind option_bind].
    replace (length (pre ++ x :: mid')) with (length (pre ++ y :: mid'))
      by (rewrite !length_app; reflexivity).
    replace (pre ++ y :: mid' ++ y :: post) with ((pre ++ y :: mid') ++ y :: post)
      by (rewrite <- app_assoc; reflexivity).
    rewrite store_middle. cbn [mbind option_bind].
    replace ((pre ++ y :: mid') ++ x :: post) with ((pre ++ [y]) ++ mid' ++ x :: post)
      by (rewrite <- !app_assoc; reflexivity).
    replace (S (length pre)) with (length (pre ++ [y]))
      by (rewrite length_app; cbn [length]; lia).
    rewrite (IH (pre ++ [y]) mid' (x :: post) len);
      [ | rewrite length_app; cbn [length]; lia | exact Hn' ].
    f_equal. cbn [rev]. rewrite rev_app_distr. cbn [rev app].
    rewrite <- !app_assoc. reflexivity.
Qed.

(** The byte store loop, after [i] registers, with the bytes written so far
    in [done]. *)
Lemma regs_to_bytes_loop_spec (regs : list Z) (n : nat) :
  forall (i : nat) (done todo : list Z),
    length done = (i * 2)%nat ->
    (i + n <= length regs)%nat ->
    (n * 2 <= length todo)%nat ->
    regs_to_bytes_loop regs n i (done ++ todo)
    = Some (done
            ++ concat (map (fun r => [Z.land (Z.shiftr r 8) 255; Z.land r 255])
                           (take n (drop i regs)))
            ++ drop (n * 2) todo).
Proof.
  induction n as [ | n IH ]; intros i done todo Hdone Hregs Htodo.
  - cbn. reflexivity.
  - cbn [regs_to_bytes_loop].
    destruct (lookup_lt_is_Some_2 regs i) as [r Hr]; [ lia | ].
    rewrite Hr. cbn [mbind option_bind].
    destruct todo as [ | a [ | b todo ] ]; cbn [length] in Htodo; try lia.
    rewrite <- Hdone, store_middle. cbn [mbind option_bind].
    replace (length done + 1)%nat with (length (done ++ [Z.land (Z.shiftr r 8) 255]))
      by (rewrite length_app; reflexivity).
    replace (done ++ Z.land (Z.shiftr r 8) 255 :: b :: todo)
      with ((done ++ [Z.land (Z.shiftr r 8) 255]) ++ b :: todo)
      by (rewrite <- app_assoc; reflexivity).
    rewrite store_middle. cbn [mbind option_bind].
    replace ((done ++ [Z.land (Z.shiftr r 8) 255]) ++ Z.land r 255 :: todo)
      with ((done ++ [Z.land (Z.shiftr r 8) 255; Z.land r 255]) ++ todo)
      by (rewrite <- !app_assoc; reflexivity).
    rewrite (IH (S i)); [ | rewrite length_app; cbn [length]; lia | lia | lia ].
    f_equal. rewrite (drop_S regs r i Hr). cbn [take map concat drop Nat.mul Nat.add].
    rewrite <- !app_assoc. reflexivity.
Qed.

Lemma regs_to_bytes_loop_short_regs (regs : list Z) (n : nat) :
  forall (i : nat) (bytes : list Z),
    (i <= length regs < i + n)%nat -> regs_to_bytes_loop regs n i bytes = None.
Proof.
  induction n as [ | n IH ]; intros i bytes Hlen; [ lia | ].
  cbn [regs_to_bytes_loop].
  destruct (regs !! i) as [r | ] eqn:Hr; [ | reflexivity ].
  apply lookup_lt_Some in Hr.
  cbn [mbind option_bind].
  destruct (store (i * 2) _ bytes) as [bytes1 | ]; [ | reflexivity ].
  cbn [mbind option_bind].
  destruct (store (i * 2 + 1) _ bytes1) as [bytes2 | ]; [ | reflexivity ].
  cbn [mbind option_bind]. apply IH. lia.
Qed.

Lemma regs_to_bytes_loop_short_bytes (regs : list Z) (n : nat) :
  forall (i : nat) (bytes : list Z),
    (i * 2 <= length bytes < (i + n) * 2)%nat ->
    regs_to_bytes_loop regs n i bytes = None.
Proof.
  induction n as [ | n IH ]; intros i bytes Hlen; [ lia | ].
  cbn [regs_to_bytes_loop].
  destruct (regs !! i) as [r | ]; [ | reflexivity ].
  cbn [mbind option_bind].
  destruct (store (i * 2) _ bytes) as [bytes1 | ] eqn:H1; [ | reflexivity ].
  cbn [mbind option_bind]. apply store_length in H1.
  destruct (store (i * 2 + 1) _ bytes1) as [bytes2 | ] eqn:H2; [ | reflexivity ].
  cbn [mbind option_bind].
  assert (Hin : (i * 2 + 1 < length bytes1)%nat).
  { unfold store in H2. destruct (Nat.ltb_spec (i * 2 + 1) (length bytes1));
      [ trivial | discriminate ]. }
  apply store_length in H2. apply IH. lia.
Qed.

(** X1.  [bytes_reverse(bytes, len)] reverses the first [len] bytes of the
    array in place and leaves the bytes after them as they were, for every
    length; an array shorter than a [len] of 2 or more is read outside its
    bounds. *)
Theorem X1_bytes_reverse_reverses_in_place (bytes rest : list Z) :
  bytes_reverse (bytes ++ rest) (length bytes) = Some (rev bytes ++ rest)
  /\ forall len : nat,
       (2 <= len)%nat -> (length bytes < len)%nat -> bytes_reverse bytes len = None.
Proof.
  split.
  - unfold bytes_reverse.
    apply (bytes_reverse_loop_spec (length bytes / 2) [] bytes rest); cbn [length]; lia.
  - intros len Hlen Hshort. unfold bytes_reverse.
    destruct (len / 2)%nat as [ | n ] eqn:Hn.
    + assert (len < 2)%nat by (apply Nat.div_small_iff in Hn; lia). lia.
    + cbn [bytes_reverse_loop].
      destruct (bytes !! 0%nat) as [temp | ]; [ | reflexivity ].
      cbn [mbind option_bind].
      rewrite (proj2 (lookup_ge_None bytes (len - 1 - 0))) by lia. reflexivity.
Qed.

Lemma X1_bytes_reverse_reverses_in_place_witness :
  bytes_reverse [1; 2; 3] 4 = None.
Proof.
  apply (proj2 (X1_bytes_reverse_reverses_in_place [1; 2; 3] []) 4%nat);
    cbn [length]; lia.
Defined.

(** X2.  [regs_to_bytes(regs, count, bytes)] overwrites the first
    [2 * count] bytes with the first [count] registers, each as its high
    byte followed by its low byte, and leaves the remaining bytes as they
    were; it reads or writes outside an array when [regs] holds fewer than
    [count] registers or [bytes] fewer than [2 * count] bytes. *)
Theorem X2_regs_to_bytes_serializes_big_endian
    (regs : list Z) (count : nat) (bytes : list Z) :
  ((count <= length regs)%nat -> (count * 2 <= length bytes)%nat ->
   Forall is_u16 regs ->
   regs_to_bytes regs count bytes
   = Some (concat (map word_be_bytes (take count regs)) ++ drop (count * 2) bytes))
  /\ ((length regs < count)%nat -> regs_to_bytes regs count bytes = None)
  /\ ((length bytes < count * 2)%nat -> regs_to_bytes regs count bytes = None).
Proof.
  unfold regs_to_bytes. split; [ | split ].
  - intros Hregs Hbytes Hu16.
    pose proof (regs_to_bytes_loop_spec regs count 0 [] bytes) as Hloop.
    cbn [app length drop] in Hloop. rewrite Hloop by lia. do 3 f_equal.
    apply map_ext_Forall. apply Forall_take.
    eapply Forall_impl; [ exact Hu16 | ].
    intros r Hr. cbn beta. unfold word_be_bytes. now rewrite hi_byte, lo_byte.
  - intros Hshort. apply regs_to_bytes_loop_short_regs. lia.
  - intros Hshort. apply regs_to_bytes_loop_short_bytes. lia.
Qed.

Lemma X2_regs_to_bytes_serializes_big_endian_witness :
  regs_to_bytes [0x1234; 0x5678; 0x9ABC] 2 [0; 0; 0; 0; 7]
  = Some [0x12; 0x34; 0x56; 0x78; 7]
  /\ regs_to_bytes [0x1234] 2 [0; 0; 0; 0] = None
  /\ regs_to_bytes [0x1234; 0x5678] 2 [0; 0; 0] = None.
Proof.
  split; [ | split ].
  - apply (proj1 (X2_regs_to_bytes_serializes_big_endian
             [0x1234; 0x5678; 0x9ABC] 2 [0; 0; 0; 0; 7])); cbn [length]; try lia.
    repeat (apply Forall_cons_2; [ unfold is_u16; lia | ]). apply Forall_nil_2.
  - apply (proj1 (proj2 (X2_regs_to_bytes_serializes_big_endian
             [0x1234] 2 [0; 0; 0; 0]))). cbn [length]. lia.
  - apply (proj2 (proj2 (X2_regs_to_bytes_serializes_big_endian
             [0x1234; 0x5678] 2 [0; 0; 0]))). cbn [length]. lia.
Defined.

(** ** The 8-, 16- and 32-bit decoders *)

Lemma byte_swapped_involutive (r : Z) :
  is_u16 r -> byte_swapped (byte_swapped r) = r.
Proof.
  unfold is_u16, byte_swapped. change (2 ^ 16) with 65536. intros Hr. dlia.
Qed.

(** X3.  [swap_bytes_16] always yields a 16-bit value; on a 16-bit word it
    exchanges the two bytes and is its own inverse, so decoding the swapped
    word with the BA order (scaling factor 1.0) gives the word back. *)
Theorem X3_swap_bytes_16_is_an_involution (r : Z) :
  is_u16 (swap_bytes_16 r)
  /\ (is_u16 r ->
      swap_bytes_16 r = (r mod 256) * 256 + r / 256
      /\ swap_bytes_16 (swap_bytes_16 r) = r
      /\ forall rest : list Z,
           modbus_convert_int16_unsigned (Some (swap_bytes_16 r :: rest)) true
             double_1_0 Addr = store_ok r).
Proof.
  split.
  - unfold swap_bytes_16, uint16, uint, is_u16. apply Z.mod_pos_bound. lia.
  - intros Hr. pose proof (byte_swapped_u16 r Hr) as Hs.
    pose proof (byte_swapped_involutive r Hr) as Hinv.
    rewrite !swap_bytes_16_spec by (trivial; now rewrite swap_bytes_16_spec).
    split; [ reflexivity | ]. split; [ exact Hinv | ].
    intros rest. rewrite int16_unsigned_value by trivial. now rewrite Hinv.
Qed.

Lemma X3_swap_bytes_16_is_an_involution_witness :
  swap_bytes_16 0x1234 = 0x3412 /\ swap_bytes_16 (swap_bytes_16 0x1234) = 0x1234.
Proof.
  assert (H : is_u16 0x1234) by (unfold is_u16; lia).
  destruct (proj2 (X3_swap_bytes_16_is_an_involution 0x1234) H) as (H1 & H2 & _).
  split; [ exact H1 | exact H2 ].
Defined.

Lemma int8_unsigned_scaled (r : Z) (rest : list Z) (sf : double) :
  modbus_convert_int8_unsigned (Some (r :: rest)) sf Addr
  = (v ← uint8_of_double (double_mul (double_of_int (r mod 256)) sf);
     store_ok v).
Proof.
  unfold modbus_convert_int8_unsigned.
  cbn [lookup list_lookup mbind option_bind]. now rewrite land_255.
Qed.

(** X4.  The unsigned 8-bit decoder uses only the low byte of the first
    register: it scales [r mod 256] and narrows the product to 8 bits; with
    scaling factor 1.0 it stores [r mod 256]; on an empty array it reads
    outside the array. *)
Theorem X4_int8_unsigned_low_byte (r : Z) (rest : list Z) (scaling_factor : double) :
  modbus_convert_int8_unsigned (Some (r :: rest)) scaling_factor Addr
  = (v ← uint8_of_double (double_mul (double_of_int (r mod 256)) scaling_factor);
     store_ok v)
  /\ modbus_convert_int8_unsigned (Some (r :: rest)) double_1_0 Addr
     = store_ok (r mod 256)
  /\ modbus_convert_int8_unsigned (Some []) scaling_factor Addr = None.
Proof.
  pose proof (int8_unsigned_scaled r rest) as Hgen.
  split; [ apply Hgen | ]. split; [ | reflexivity ].
  rewrite Hgen. unfold uint8_of_double.
  assert (Hb : 0 <= r mod 256 < 256) by (apply Z.mod_pos_bound; lia).
  rewrite (int_of_double_in_range _ _ _ (r mod 256)).
  - reflexivity.
  - apply scale_by_1_0_exact. change (2 ^ 53) with 9007199254740992. lia.
  - change (2 ^ 8 - 1) with 255. lia.
Qed.

Lemma int16_twos_complement (u : Z) :
  is_u16 u -> int32 (if u >? 32767 then u - 65536 else u) = twos_complement 16 u
              /\ - 2 ^ 15 <= twos_complement 16 u <= 2 ^ 15 - 1.
Proof.
  unfold is_u16, int32, sint, twos_complement.
  change (2 ^ 16) with 65536. change (2 ^ (16 - 1) - 1) with 32767.
  change (2 ^ 32) with 4294967296. change (2 ^ (32 - 1)) with 2147483648.
  change (2 ^ 15) with 32768.
  intros Hu. destruct (Z.gtb_spec u 32767).
  - replace ((u - 65536) mod 4294967296) with (u - 65536 + 4294967296) by dlia.
    destruct (Z.ltb_spec (u - 65536 + 4294967296) 2147483648); lia.
  - rewrite Z.mod_small by lia. destruct (Z.ltb_spec u 2147483648); lia.
Qed.

Lemma int16_scaled (r : Z) (rest : list Z) (swap_bytes : bool) (sf : double) :
  is_u16 r ->
  let val := if swap_bytes then byte_swapped r else r in
  is_u16 val
  /\ modbus_convert_int16_unsigned (Some (r :: rest)) swap_bytes sf Addr
     = (v ← uint16_of_double (double_mul (double_of_int val) sf); store_ok v)
  /\ modbus_convert_int16_signed (Some (r :: rest)) swap_bytes sf Addr
     = (v ← int16_of_double (double_mul (double_of_int (twos_complement 16 val)) sf);
        store_ok v).
Proof.
  intros Hr val.
  assert (Hval : is_u16 val)
    by (unfold val; destruct swap_bytes; trivial; now apply byte_swapped_u16).
  assert (Hsw : (if swap_bytes then swap_bytes_16 r else r) = val)
    by (unfold val; destruct swap_bytes; trivial; now rewrite swap_bytes_16_spec).
  destruct (int16_twos_complement val Hval) as [Htc _].
  split; [ exact Hval | ].
  unfold modbus_convert_int16_unsigned, modbus_convert_int16_signed.
  cbn [lookup list_lookup mbind option_bind]. rewrite Hsw, Htc. split; reflexivity.
Qed.

(** X5.  The signed 16-bit decoder reads the first register (byte-swapped
    for the BA order) in two's complement over 16 bits, scales it and
    narrows the product to 16 bits; with scaling factor 1.0 it stores the
    two's-complement value itself. *)
Theorem X5_int16_signed_twos_complement
    (r : Z) (rest : list Z) (swap_bytes : bool) (scaling_factor : double) :
  is_u16 r ->
  let val := if swap_bytes then byte_swapped r else r in
  modbus_convert_int16_signed (Some (r :: rest)) swap_bytes scaling_factor Addr
  = (v ← int16_of_double
           (double_mul (double_of_int (twos_complement 16 val)) scaling_factor);
     store_ok v)
  /\ modbus_convert_int16_signed (Some (r :: rest)) swap_bytes double_1_0 Addr
     = store_ok (twos_complement 16 val).
Proof.
  intros Hr val.
  assert (Hgen : forall sf,
    modbus_convert_int16_signed (Some (r :: rest)) swap_bytes sf Addr
    = (v ← int16_of_double (double_mul (double_of_int (twos_complement 16 val)) sf);
       store_ok v))
    by (intros sf; apply (int16_scaled r rest swap_bytes sf Hr)).
  destruct (int16_scaled r rest swap_bytes double_1_0 Hr) as (Hval & _).
  fold val in Hval.
  destruct (int16_twos_complement val Hval) as [_ Hrange].
  split; [ apply Hgen | ].
  rewrite Hgen. unfold int16_of_double.
  rewrite (int_of_double_in_range _ _ _ (twos_complement 16 val)).
  - reflexivity.
  - apply scale_by_1_0_exact. change (2 ^ 15) with 32768 in Hrange.
    change (2 ^ 53) with 9007199254740992. lia.
  - exact Hrange.
Qed.

Lemma X5_int16_signed_twos_complement_witness :
  modbus_convert_int16_signed (Some [0x00FF]) true double_1_0 Addr
  = store_ok (-256).
Proof.
  assert (H : is_u16 0x00FF) by (unfold is_u16; lia).
  exact (proj2 (X5_int16_signed_twos_complement 0x00FF [] true double_1_0 H)).
Defined.

(** The [switch] of the 32-bit decoders runs the case of the pattern. *)
Lemma int32_unsigned_switch (p : pattern32) (registers : list Z) (sf : double) :
  modbus_convert_int32 (Some registers) (int32_unsigned p) sf Addr
  = (bytes ← case32 p registers;
     u32_val ← assemble32 bytes;
     v ← uint32_of_double (double_mul (double_of_int u32_val) sf);
     store_ok (u32 v)).
Proof. destruct p; reflexivity. Qed.

Lemma int32_signed_switch (p : pattern32) (registers : list Z) (sf : double) :
  modbus_convert_int32 (Some registers) (int32_signed p) sf Addr
  = (bytes ← case32 p registers;
     u32_val ← assemble32 bytes;
     v ← int32_of_double (double_mul (double_of_int (int32 u32_val)) sf);
     store_ok (i32 v)).
Proof. destruct p; reflexivity. Qed.

Lemma float32_switch (p : pattern32) (registers : list Z) (sf : double) :
  modbus_convert_float32 (Some registers) (float32_tag p) sf Addr
  = (bytes ← case32 p registers;
     u32_val ← assemble32 bytes;
     store_ok (float_of_double
                 (double_mul (double_of_float (float_of_bits u32_val)) sf))).
Proof. destruct p; reflexivity. Qed.

Lemma word_pair_range (hi lo : Z) :
  is_u16 hi -> is_u16 lo -> 0 <= word_pair hi lo < 2 ^ 32.
Proof.
  unfold is_u16, word_pair. change (2 ^ 16) with 65536.
  change (2 ^ 32) with 4294967296. lia.
Qed.

Lemma assemble32_words (hi lo : Z) :
  is_u16 hi -> is_u16 lo ->
  assemble32 (word_be_bytes hi ++ word_be_bytes lo) = Some (word_pair hi lo).
Proof.
  intros Hh Hl. destruct (u16_bytes _ Hh), (u16_bytes _ Hl).
  unfold word_be_bytes. cbn [app]. rewrite assemble32_msb_first by trivial.
  f_equal. unfold msb_first, word_pair. cbn [fold_left].
  unfold is_u16 in *. change (2 ^ 16) with 65536 in *. dlia.
Qed.

(** The case of a pattern reads the first two registers only and
    assembles [word32]. *)
Lemma case32_word32 (p : pattern32) (r0 r1 : Z) (rest : list Z) :
  is_u16 r0 -> is_u16 r1 ->
  (bytes ← case32 p (r0 :: r1 :: rest); assemble32 bytes) = Some (word32 p r0 r1)
  /\ 0 <= word32 p r0 r1 < 2 ^ 32.
Proof.
  intros U0 U1.
  pose proof (byte_swapped_u16 r0 U0) as S0. pose proof (byte_swapped_u16 r1 U1) as S1.
  destruct (byte_swapped_hi_lo r0 U0) as [Hh0 Hl0].
  destruct (byte_swapped_hi_lo r1 U1) as [Hh1 Hl1].
  assert (Hsw : Some [r0 mod 256; r0 / 256; r1 mod 256; r1 / 256]
                = Some (word_be_bytes (byte_swapped r0) ++ word_be_bytes (byte_swapped r1))).
  { unfold word_be_bytes. cbn [app]. now rewrite Hh0, Hl0, Hh1, Hl1. }
  destruct p; cbn [case32 word32]; (split; [ | now apply word_pair_range ]).
  - change (case_ABCD (r0 :: r1 :: rest)) with (case_ABCD [r0; r1]).
    rewrite case_ABCD_bytes by trivial. now apply assemble32_words.
  - change (case_DCBA (r0 :: r1 :: rest)) with (case_DCBA [r0; r1]).
    rewrite case_DCBA_bytes, Hsw by trivial. now apply assemble32_words.
  - change (case_BADC (r0 :: r1 :: rest)) with (case_BADC [r0; r1]).
    rewrite case_BADC_bytes, Hsw by trivial. now apply assemble32_words.
  - change (case_CDAB (r0 :: r1 :: rest)) with (case_CDAB [r0; r1]).
    rewrite case_CDAB_bytes by trivial. now apply assemble32_words.
Qed.

Lemma int32_twos_complement (u : Z) :
  0 <= u < 2 ^ 32 ->
  int32 u = twos_complement 32 u
  /\ - 2 ^ 31 <= twos_complement 32 u <= 2 ^ 31 - 1.
Proof.
  unfold int32, sint, twos_complement. intros Hu.
  rewrite Z.mod_small by lia.
  change (2 ^ (32 - 1)) with 2147483648. change (2 ^ 31) with 2147483648.
  change (2 ^ 32) with 4294967296 in *.
  destruct (Z.ltb_spec u 2147483648), (Z.gtb_spec u (2147483648 - 1)); lia.
Qed.

Lemma int32_scaled (p : pattern32) (r0 r1 : Z) (rest : list Z) (sf : double) :
  is_u16 r0 -> is_u16 r1 ->
  let raw := word32 p r0 r1 in
  modbus_convert_int32 (Some (r0 :: r1 :: rest)) (int32_unsigned p) sf Addr
  = (v ← uint32_of_double (double_mul (double_of_int raw) sf); store_ok (u32 v))
  /\ modbus_convert_int32 (Some (r0 :: r1 :: rest)) (int32_signed p) sf Addr
     = (v ← int32_of_double (double_mul (double_of_int (twos_complement 32 raw)) sf);
        store_ok (i32 v)).
Proof.
  intros U0 U1 raw.
  destruct (case32_word32 p r0 r1 rest U0 U1) as [Hraw Hrange]. fold raw in Hraw, Hrange.
  destruct (int32_twos_complement raw Hrange) as [Htc _].
  rewrite int32_unsigned_switch, int32_signed_switch.
  destruct (case32 p (r0 :: r1 :: rest)) as [bytes | ]; [ | discriminate ].
  cbn [mbind option_bind] in *. rewrite Hraw. cbn [mbind option_bind].
  rewrite Htc. split; reflexivity.
Qed.

(** X6.  The 32-bit integer decoder on any array of at least two registers:
    every enumerator assembles the number [word32] of its pattern from the
    first two registers; the unsigned enumerators scale it, the signed ones
    scale its two's-complement reading, and with scaling factor 1.0 the
    stored value is that number itself.  In particular the DCBA enumerators
    store what the BADC enumerators store. *)
Theorem X6_int32_decodes_word32
    (p : pattern32) (r0 r1 : Z) (rest : list Z) (scaling_factor : double) :
  is_u16 r0 -> is_u16 r1 ->
  let registers := Some (r0 :: r1 :: rest) in
  let raw := word32 p r0 r1 in
  modbus_convert_int32 registers (int32_unsigned p) scaling_factor Addr
  = (v ← uint32_of_double (double_mul (double_of_int raw) scaling_factor);
     store_ok (u32 v))
  /\ modbus_convert_int32 registers (int32_signed p) scaling_factor Addr
     = (v ← int32_of_double
              (double_mul (double_of_int (twos_complement 32 raw)) scaling_factor);
        store_ok (i32 v))
  /\ modbus_convert_int32 registers (int32_unsigned p) double_1_0 Addr
     = store_ok (u32 raw)
  /\ modbus_convert_int32 registers (int32_signed p) double_1_0 Addr
     = store_ok (i32 (twos_complement 32 raw)).
Proof.
  intros U0 U1 registers raw.
  destruct (case32_word32 p r0 r1 rest U0 U1) as [Hraw Hrange]. fold raw in Hraw, Hrange.
  destruct (int32_twos_complement raw Hrange) as [Htc Htcr].
  assert (Hu : forall sf,
    modbus_convert_int32 registers (int32_unsigned p) sf Addr
    = (v ← uint32_of_double (double_mul (double_of_int raw) sf); store_ok (u32 v)))
    by (intros sf; apply (int32_scaled p r0 r1 rest sf U0 U1)).
  assert (Hs : forall sf,
    modbus_convert_int32 registers (int32_signed p) sf Addr
    = (v ← int32_of_double (double_mul (double_of_int (twos_complement 32 raw)) sf);
       store_ok (i32 v)))
    by (intros sf; apply (int32_scaled p r0 r1 rest sf U0 U1)).
  split; [ apply Hu | ]. split; [ apply Hs | ].
  change (2 ^ 32) with 4294967296 in Hrange. change (2 ^ 31) with 2147483648 in Htcr.
  split.
  - rewrite Hu. unfold uint32_of_double.
    rewrite (int_of_double_in_range _ _ _ raw); [ reflexivity | | ].
    + apply scale_by_1_0_exact. change (2 ^ 53) with 9007199254740992. lia.
    + change (2 ^ 32 - 1) with 4294967295. lia.
  - rewrite Hs. unfold int32_of_double.
    rewrite (int_of_double_in_range _ _ _ (twos_complement 32 raw)); [ reflexivity | | ].
    + apply scale_by_1_0_exact. change (2 ^ 53) with 9007199254740992. lia.
    + change (- 2 ^ 31) with (- 2147483648). change (2 ^ 31 - 1) with 2147483647. lia.
Qed.

Lemma X6_int32_decodes_word32_witness :
  modbus_convert_int32 (Some [0xFFFF; 0xFFFE]) MODBUS_INT32_SIGNED_CDAB
    double_1_0 Addr = store_ok (i32 (-65537)).
Proof.
  assert (H0 : is_u16 0xFFFF) by (unfold is_u16; lia).
  assert (H1 : is_u16 0xFFFE) by (unfold is_u16; lia).
  exact (proj2 (proj2 (proj2
    (X6_int32_decodes_word32 CDAB 0xFFFF 0xFFFE [] double_1_0 H0 H1)))).
Defined.

(** ** The 64-bit integer decoder *)

(** X7.  The 64-bit integer decoder with scaling factor 1.0 stores the raw
    value itself whenever that value has at most 53 bits (a [double] holds
    it exactly): the unsigned enumerators for a raw value below [2^53], the
    signed ones for a two's-complement reading between [-2^53] and
    [2^53]. *)
Theorem X7_int64_unit_scale_below_2_53
    (p : pattern64) (r0 r1 r2 r3 : Z) :
  is_u16 r0 -> is_u16 r1 -> is_u16 r2 -> is_u16 r3 ->
  let registers := [r0; r1; r2; r3] in
  let raw := raw64 (table64 p) registers in
  (raw < 2 ^ 53 ->
   modbus_convert_int64 (Some registers) (int64_unsigned p) double_1_0 Addr
   = store_ok (u64 raw))
  /\ (- 2 ^ 53 < twos_complement 64 raw < 2 ^ 53 ->
      modbus_convert_int64 (Some registers) (int64_signed p) double_1_0 Addr
      = store_ok (i64 (twos_complement 64 raw))).
Proof.
  intros U0 U1 U2 U3 registers raw.
  destruct (reordered_bytes_wf r0 r1 r2 r3 U0 U1 U2 U3 p) as [Hl Hb].
  pose proof (raw64_range r0 r1 r2 r3 U0 U1 U2 U3 p) as Hraw. fold registers raw in Hraw.
  unfold registers.
  rewrite int64_unsigned_switch, int64_signed_switch, case64_reordered by trivial.
  cbn [mbind option_bind]. rewrite assemble64_bytes by trivial.
  cbn [mbind option_bind]. fold registers (raw64 (table64 p) registers). fold raw.
  rewrite int64_twos_complement by trivial.
  change (2 ^ 53) with 9007199254740992. change (2 ^ 64) with 18446744073709551616 in Hraw.
  split; intros Hsmall.
  - unfold uint64_of_double.
    rewrite (int_of_double_in_range _ _ _ raw); [ reflexivity | | ].
    + apply scale_by_1_0_exact. change (2 ^ 53) with 9007199254740992. lia.
    + change (2 ^ 64 - 1) with 18446744073709551615. lia.
  - unfold int64_of_double.
    rewrite (int_of_double_in_range _ _ _ (twos_complement 64 raw)); [ reflexivity | | ].
    + apply scale_by_1_0_exact. change (2 ^ 53) with 9007199254740992. lia.
    + change (- 2 ^ 63) with (- 9223372036854775808).
      change (2 ^ 63 - 1) with 9223372036854775807. lia.
Qed.

Lemma X7_int64_unit_scale_below_2_53_witness :
  modbus_convert_int64 (Some [0xFFFF; 0xFFFF; 0xFFFF; 0xFFFE])
    MODBUS_INT64_SIGNED_ABCDEFGH double_1_0 Addr = store_ok (i64 (-2))
  /\ modbus_convert_int64 (Some [0x0000; 0x0001; 0x0002; 0x0003])
       MODBUS_INT64_UNSIGNED_CDABGHEF double_1_0 Addr
     = store_ok (u64 0x0001000000030002).
Proof.
  assert (Ha : is_u16 0xFFFF) by (unfold is_u16; lia).
  assert (Hb : is_u16 0xFFFE) by (unfold is_u16; lia).
  assert (H0 : is_u16 0) by (unfold is_u16; lia).
  assert (H1 : is_u16 1) by (unfold is_u16; lia).
  assert (H2 : is_u16 2) by (unfold is_u16; lia).
  assert (H3 : is_u16 3) by (unfold is_u16; lia).
  split.
  - apply (proj2 (X7_int64_unit_scale_below_2_53 ABCDEFGH
             0xFFFF 0xFFFF 0xFFFF 0xFFFE Ha Ha Ha Hb)).
    vm_compute. split; reflexivity.
  - apply (proj1 (X7_int64_unit_scale_below_2_53 CDABGHEF 0 1 2 3 H0 H1 H2 H3)).
    vm_compute. reflexivity.
Defined.

(** ** Return codes and stored members *)

Lemma succeeds_store_ok {A : Type} (P : A -> Prop) (v : A) :
  P v -> succeeds_with P (store_ok v).
Proof.
  intros Hv o Ho. injection Ho as <-. split; [ reflexivity | ].
  exists v. split; [ reflexivity | exact Hv ].
Qed.

Lemma succeeds_bind {A B : Type} (P : A -> Prop) (m : option B)
    (k : B -> option (outcome A)) :
  (forall x, m = Some x -> succeeds_with P (k x)) ->
  succeeds_with P (x ← m; k x).
Proof.
  intros Hk o Ho. destruct m as [x | ]; [ now apply (Hk x) | discriminate ].
Qed.

Lemma succeeds_member {A : Type} (P : A -> Prop) (Q : modbus_value_t -> Prop)
    (m : A -> modbus_value_t) (call : option (outcome A)) :
  (forall a, P a -> Q (m a)) ->
  succeeds_with P call -> succeeds_with Q (member m call).
Proof.
  intros HPQ Hcall o Ho. unfold member in Ho.
  destruct call as [o' | ]; [ | discriminate ].
  cbn [mbind option_bind] in Ho. injection Ho as <-. cbn [code stored].
  destruct (Hcall o' eq_refl) as (Hc & v & Hv & HP).
  split; [ exact Hc | ]. exists (m v). rewrite Hv. split; [ reflexivity | auto ].
Qed.

Lemma succeeds_weaken {A : Type} (P Q : A -> Prop) (call : option (outcome A)) :
  (forall a, P a -> Q a) -> succeeds_with P call -> succeeds_with Q call.
Proof.
  intros HPQ Hcall o Ho. destruct (Hcall o Ho) as (Hc & v & Hv & HP).
  split; [ exact Hc | ]. exists v. auto.
Qed.

(** A cast that is defined yields a value of the target type. *)
Lemma int_of_double_range (lo hi : Z) (d : double) (t : Z) :
  int_of_double lo hi d = Some t -> lo <= t <= hi.
Proof.
  unfold int_of_double. destruct (double_trunc d) as [t' | ]; [ | discriminate ].
  cbn [mbind option_bind].
  destruct (Z.leb_spec lo t'), (Z.leb_spec t' hi); cbn [andb]; try discriminate.
  intros [= <-]. lia.
Qed.

Lemma succeeds_cast {A : Type} (P : A -> Prop) (lo hi : Z) (d : double)
    (m : Z -> A) :
  (forall z, lo <= z <= hi -> P (m z)) ->
  succeeds_with P (v ← int_of_double lo hi d; store_ok (m v)).
Proof.
  intros Hm. apply succeeds_bind. intros z Hz. apply succeeds_store_ok.
  apply Hm. now apply (int_of_double_range lo hi d).
Qed.

(** The enumerators of a family are the signed, the unsigned or the float
    enumerator of some pattern. *)
Lemma int32_tags (data_type : Z) :
  MODBUS_INT32_SIGNED_ABCD <= data_type <= MODBUS_INT32_UNSIGNED_CDAB ->
  exists p, (data_type = int32_signed p
             /\ MODBUS_INT32_SIGNED_ABCD <= data_type <= MODBUS_INT32_SIGNED_CDAB)
         \/ (data_type = int32_unsigned p
             /\ MODBUS_INT32_UNSIGNED_ABCD <= data_type <= MODBUS_INT32_UNSIGNED_CDAB).
Proof.
  unfold_tags. intros H.
  assert (Hc : data_type = 7 \/ data_type = 8 \/ data_type = 9 \/ data_type = 10
            \/ data_type = 11 \/ data_type = 12 \/ data_type = 13 \/ data_type = 14)
    by lia.
  destruct Hc as [-> | [-> | [-> | [-> | [-> | [-> | [-> | ->]]]]]]];
    [ exists ABCD; left | exists DCBA; left | exists BADC; left | exists CDAB; left
    | exists ABCD; right | exists DCBA; right | exists BADC; right | exists CDAB; right ];
    (split; [ reflexivity | lia ]).
Qed.

Lemma int64_tags (data_type : Z) :
  MODBUS_INT64_SIGNED_ABCDEFGH <= data_type <= MODBUS_INT64_UNSIGNED_EFGHABCD ->
  exists p, (data_type = int64_signed p
             /\ MODBUS_INT64_SIGNED_ABCDEFGH <= data_type <= MODBUS_INT64_SIGNED_EFGHABCD)
         \/ (data_type = int64_unsigned p
             /\ MODBUS_INT64_UNSIGNED_ABCDEFGH <= data_type
                <= MODBUS_INT64_UNSIGNED_EFGHABCD).
Proof.
  unfold_tags. intros H.
  assert (Hc : (data_type = 15 \/ data_type = 16 \/ data_type = 17 \/ data_type = 18
             \/ data_type = 19 \/ data_type = 20 \/ data_type = 21 \/ data_type = 22)
            \/ (data_type = 23 \/ data_type = 24 \/ data_type = 25 \/ data_type = 26
             \/ data_type = 27 \/ data_type = 28 \/ data_type = 29 \/ data_type = 30))
    by lia.
  destruct Hc as [Hc | Hc];
    destruct Hc as [-> | [-> | [-> | [-> | [-> | [-> | [-> | ->]]]]]]];
    [ exists ABCDEFGH; left | exists HGFEDCBA; left | exists BADCFEHG; left
    | exists CDABGHEF; left | exists DCBAHGFE; left | exists GHEFCDAB; left
    | exists FEHGBADC; left | exists EFGHABCD; left
    | exists ABCDEFGH; right | exists HGFEDCBA; right | exists BADCFEHG; right
    | exists CDABGHEF; right | exists DCBAHGFE; right | exists GHEFCDAB; right
    | exists FEHGBADC; right | exists EFGHABCD; right ];
    (split; [ reflexivity | lia ]).
Qed.

Lemma float32_tags (data_type : Z) :
  MODBUS_IEEE_FLOAT32_ABCD <= data_type <= MODBUS_IEEE_FLOAT32_BADC ->
  exists p, data_type = float32_tag p.
Proof.
  unfold_tags. intros H.
  assert (Hc : data_type = 31 \/ data_type = 32 \/ data_type = 33 \/ data_type = 34)
    by lia.
  destruct Hc as [-> | [-> | [-> | ->]]];
    [ exists ABCD | exists CDAB | exists DCBA | exists BADC ]; reflexivity.
Qed.

Lemma float64_tags (data_type : Z) :
  MODBUS_IEEE_FLOAT64_ABCDEFGH <= data_type <= MODBUS_IEEE_FLOAT64_EFGHABCD ->
  exists p, data_type = float64_tag p.
Proof.
  unfold_tags. intros H.
  assert (Hc : data_type = 35 \/ data_type = 36 \/ data_type = 37 \/ data_type = 38
            \/ data_type = 39 \/ data_type = 40 \/ data_type = 41 \/ data_type = 42)
    by lia.
  destruct Hc as [-> | [-> | [-> | [-> | [-> | [-> | [-> | ->]]]]]]];
    [ exists ABCDEFGH | exists HGFEDCBA | exists BADCFEHG | exists CDABGHEF
    | exists DCBAHGFE | exists GHEFCDAB | exists FEHGBADC | exists EFGHABCD ];
    reflexivity.
Qed.

Lemma float64_switch (p : pattern64) (registers : list Z) (sf : double) :
  modbus_convert_float64 (Some registers) (float64_tag p) sf Addr
  = (bytes ← case64 p registers;
     u64_val ← assemble64 bytes;
     store_ok (double_mul (double_of_bits u64_val) sf)).
Proof. destruct p; reflexivity. Qed.

(** A [switch] none of whose labels is the scrutinee takes the [default]
    label. *)
Lemma switch_default {A : Type} (x : Z) (cases : list (list Z * A)) :
  Forall (fun c => Forall (fun label => x <> label) (fst c)) cases ->
  switch x cases = None.
Proof.
  induction 1 as [ | [labels body] rest Hl _ IH ]; [ reflexivity | ].
  cbn [switch fst] in *.
  replace (existsb (Z.eqb x) labels) with false; [ exact IH | ].
  symmetry. induction Hl as [ | label labels' Hne _ IHl ]; [ reflexivity | ].
  cbn [existsb]. rewrite IHl. now destruct (Z.eqb_spec x label).
Qed.

(** What each specialised decoder returns and stores, by data type. *)
Lemma int32_outcome (registers : list Z) (data_type : Z) (sf : double) :
  let call := modbus_convert_int32 (Some registers) data_type sf Addr in
  (MODBUS_INT32_SIGNED_ABCD <= data_type <= MODBUS_INT32_UNSIGNED_CDAB ->
   succeeds_with (fits data_type) call)
  /\ (data_type < MODBUS_INT32_SIGNED_ABCD \/ MODBUS_INT32_UNSIGNED_CDAB < data_type ->
      call = fail MODBUS_CONV_ERR_INVALID_TYPE).
Proof.
  intros call. split.
  - intros Hr. destruct (int32_tags data_type Hr) as [p [[Hp Hs] | [Hp Hu]]]; unfold call.
    + subst data_type. rewrite int32_signed_switch.
      apply succeeds_bind; intros bytes _. apply succeeds_bind; intros u _.
      apply succeeds_cast. intros z Hz. cbn [fits]. split; [ exact Hs | exact Hz ].
    + subst data_type. rewrite int32_unsigned_switch.
      apply succeeds_bind; intros bytes _. apply succeeds_bind; intros u _.
      apply succeeds_cast. intros z Hz. cbn [fits]. split; [ exact Hu | exact Hz ].
  - intros Hr. unfold call, modbus_convert_int32.
    rewrite switch_default; [ reflexivity | ].
    unfold_tags.
    repeat first [ apply Forall_nil_2 | apply Forall_cons_2 | cbn [fst]; lia ].
Qed.

Lemma int64_outcome (registers : list Z) (data_type : Z) (sf : double) :
  let call := modbus_convert_int64 (Some registers) data_type sf Addr in
  (MODBUS_INT64_SIGNED_ABCDEFGH <= data_type <= MODBUS_INT64_UNSIGNED_EFGHABCD ->
   succeeds_with (fits data_type) call)
  /\ (data_type < MODBUS_INT64_SIGNED_ABCDEFGH
      \/ MODBUS_INT64_UNSIGNED_EFGHABCD < data_type ->
      call = fail MODBUS_CONV_ERR_INVALID_TYPE).
Proof.
  intros call. split.
  - intros Hr. destruct (int64_tags data_type Hr) as [p [[Hp Hs] | [Hp Hu]]]; unfold call.
    + subst data_type. rewrite int64_signed_switch.
      apply succeeds_bind; intros bytes _. apply succeeds_bind; intros u _.
      apply succeeds_cast. intros z Hz. cbn [fits]. split; [ exact Hs | exact Hz ].
    + subst data_type. rewrite int64_unsigned_switch.
      apply succeeds_bind; intros bytes _. apply succeeds_bind; intros u _.
      apply succeeds_cast. intros z Hz. cbn [fits]. split; [ exact Hu | exact Hz ].
  - intros Hr. unfold call, modbus_convert_int64.
    rewrite switch_default; [ reflexivity | ].
    unfold_tags.
    repeat first [ apply Forall_nil_2 | apply Forall_cons_2 | cbn [fst]; lia ].
Qed.

Lemma float32_outcome (registers : list Z) (data_type : Z) (sf : double) :
  let call := modbus_convert_float32 (Some registers) data_type sf Addr in
  (MODBUS_IEEE_FLOAT32_ABCD <= data_type <= MODBUS_IEEE_FLOAT32_BADC ->
   succeeds_with (fun _ => True) call)
  /\ (data_type < MODBUS_IEEE_FLOAT32_ABCD \/ MODBUS_IEEE_FLOAT32_BADC < data_type ->
      call = fail MODBUS_CONV_ERR_INVALID_TYPE).
Proof.
  intros call. split.
  - intros Hr. destruct (float32_tags data_type Hr) as [p ->]; unfold call.
    rewrite float32_switch.
    apply succeeds_bind; intros bytes _. apply succeeds_bind; intros u _.
    now apply succeeds_store_ok.
  - intros Hr. unfold call, modbus_convert_float32.
    rewrite switch_default; [ reflexivity | ].
    unfold_tags.
    repeat first [ apply Forall_nil_2 | apply Forall_cons_2 | cbn [fst]; lia ].
Qed.

Lemma float64_outcome (registers : list Z) (data_type : Z) (sf : double) :
  let call := modbus_convert_float64 (Some registers) data_type sf Addr in
  (MODBUS_IEEE_FLOAT64_ABCDEFGH <= data_type <= MODBUS_IEEE_FLOAT64_EFGHABCD ->
   succeeds_with (fun _ => True) call)
  /\ (data_type < MODBUS_IEEE_FLOAT64_ABCDEFGH
      \/ MODBUS_IEEE_FLOAT64_EFGHABCD < data_type ->
      call = fail MODBUS_CONV_ERR_INVALID_TYPE).
Proof.
  intros call. split.
  - intros Hr. destruct (float64_tags data_type Hr) as [p ->]; unfold call.
    rewrite float64_switch.
    apply succeeds_bind; intros bytes _. apply succeeds_bind; intros u _.
    now apply succeeds_store_ok.
  - intros Hr. unfold call, modbus_convert_float64.
    rewrite switch_default; [ reflexivity | ].
    unfold_tags.
    repeat first [ apply Forall_nil_2 | apply Forall_cons_2 | cbn [fst]; lia ].
Qed.

Lemma bit_bool_outcome (registers : list Z) (bit_pos : Z) :
  let call := modbus_convert_bit_bool (Some registers) bit_pos Addr in
  (bit_pos <= 15 -> succeeds_with (fun _ => True) call)
  /\ (15 < bit_pos -> call = fail MODBUS_CONV_ERR_INVALID_BIT).
Proof.
  intros call. unfold call, modbus_convert_bit_bool.
  destruct (Z.gtb_spec bit_pos 15); (split; [ | ]); intros Hb; try lia;
    [ reflexivity | ].
  apply succeeds_bind; intros r _. now apply succeeds_store_ok.
Qed.

Lemma int8_signed_outcome (registers : list Z) (sf : double) :
  succeeds_with (signed_range 8) (modbus_convert_int8_signed (Some registers) sf Addr).
Proof.
  unfold modbus_convert_int8_signed. apply succeeds_bind; intros r _.
  apply (succeeds_cast _ _ _ _ (fun z => z)). intros z Hz. exact Hz.
Qed.

Lemma int8_unsigned_outcome (registers : list Z) (sf : double) :
  succeeds_with (unsigned_range 8)
    (modbus_convert_int8_unsigned (Some registers) sf Addr).
Proof.
  unfold modbus_convert_int8_unsigned. apply succeeds_bind; intros r _.
  apply (succeeds_cast _ _ _ _ (fun z => z)). intros z Hz. exact Hz.
Qed.

Lemma int16_signed_outcome (registers : list Z) (swap_bytes : bool) (sf : double) :
  succeeds_with (signed_range 16)
    (modbus_convert_int16_signed (Some registers) swap_bytes sf Addr).
Proof.
  unfold modbus_convert_int16_signed. apply succeeds_bind; intros r _.
  apply (succeeds_cast _ _ _ _ (fun z => z)). intros z Hz. exact Hz.
Qed.

Lemma int16_unsigned_outcome (registers : list Z) (swap_bytes : bool) (sf : double) :
  succeeds_with (unsigned_range 16)
    (modbus_convert_int16_unsigned (Some registers) swap_bytes sf Addr).
Proof.
  unfold modbus_convert_int16_unsigned. apply succeeds_bind; intros r _.
  apply (succeeds_cast _ _ _ _ (fun z => z)). intros z Hz. exact Hz.
Qed.

Lemma in_range_spec (lo hi x : Z) :
  BoolSpec (lo <= x <= hi) (x < lo \/ hi < x) ((x >=? lo) && (x <=? hi)).
Proof.
  destruct (Z.geb_spec x lo), (Z.leb_spec x hi); constructor; lia.
Qed.

Lemma return_code_ok (registers : list Z) (reg_count data_type bit_pos : Z) :
  reg_count <> 0 ->
  MODBUS_BIT_BOOLEAN <= data_type <= MODBUS_IEEE_FLOAT64_EFGHABCD ->
  (data_type = MODBUS_BIT_BOOLEAN -> bit_pos <= 15) ->
  return_code (Some registers) reg_count data_type bit_pos Addr = MODBUS_CONV_OK.
Proof.
  unfold return_code. intros Hc Hr Hb.
  destruct (Z.eqb_spec reg_count 0); [ lia | ].
  destruct (Z.ltb_spec data_type MODBUS_BIT_BOOLEAN); [ lia | ].
  destruct (Z.gtb_spec data_type MODBUS_IEEE_FLOAT64_EFGHABCD); [ lia | ].
  cbn [orb].
  destruct (Z.eqb_spec data_type MODBUS_BIT_BOOLEAN); [ | reflexivity ].
  destruct (Z.gtb_spec bit_pos 15); [ lia | reflexivity ].
Qed.

Lemma outcome_of_success {A : Type} (P : A -> Prop) (call : option (outcome A))
    (o : outcome A) (c : Z) :
  succeeds_with P call -> call = Some o -> c = MODBUS_CONV_OK ->
  code o = c /\ (code o = MODBUS_CONV_OK -> exists v, stored o = Some v /\ P v).
Proof.
  intros Hs Ho ->. destruct (Hs o Ho) as [Hc Hv]. split; [ exact Hc | ].
  intros _. exact Hv.
Qed.

(** The outcome of [modbus_convert] on non-null pointers. *)
Lemma convert_outcome (registers : list Z) (reg_count data_type bit_pos : Z)
    (sf : double) (o : outcome modbus_value_t) :
  modbus_convert (Some registers) reg_count data_type bit_pos sf Addr = Some o ->
  code o = return_code (Some registers) reg_count data_type bit_pos Addr
  /\ (code o = MODBUS_CONV_OK -> exists v, stored o = Some v /\ fits data_type v).
Proof.
  intros Ho. unfold modbus_convert in Ho.
  destruct (Z.eqb_spec reg_count 0) as [Hz | Hz].
  { injection Ho as <-. unfold return_code. rewrite Hz. cbn [Z.eqb code].
    split; [ reflexivity | discriminate ]. }
  destruct (Z.eqb_spec data_type MODBUS_BIT_BOOLEAN) as [E | N0].
  { destruct (bit_bool_outcome registers bit_pos) as [Hok Hbad].
    destruct (Z.leb_spec bit_pos 15) as [Hb | Hb].
    - apply (outcome_of_success (fits data_type) _ o _
               (succeeds_member _ (fits data_type) bool_val _
                  (fun _ _ => E) (Hok Hb)) Ho).
      apply return_code_ok; unfold_tags; lia.
    - rewrite (Hbad Hb) in Ho. injection Ho as <-. cbn [code].
      unfold return_code. rewrite E.
      destruct (Z.eqb_spec reg_count 0); [ lia | ].
      destruct (Z.gtb_spec bit_pos 15); [ | lia ].
      split; [ reflexivity | discriminate ]. }
  destruct (Z.eqb_spec data_type MODBUS_INT8_SIGNED) as [E | N1].
  { apply (outcome_of_success (fits data_type) _ o _
             (succeeds_member _ (fits data_type) i8 _
                (fun _ H => conj E H) (int8_signed_outcome registers sf)) Ho).
    apply return_code_ok; unfold_tags; lia. }
  destruct (Z.eqb_spec data_type MODBUS_INT8_UNSIGNED) as [E | N2].
  { apply (outcome_of_success (fits data_type) _ o _
             (succeeds_member _ (fits data_type) u8 _
                (fun _ H => conj E H) (int8_unsigned_outcome registers sf)) Ho).
    apply return_code_ok; unfold_tags; lia. }
  assert (Hfit16s : MODBUS_INT16_SIGNED_AB <= data_type <= MODBUS_INT16_SIGNED_BA ->
                    forall z, signed_range 16 z -> fits data_type (i16 z))
    by (intros Hr z Hrange; exact (conj Hr Hrange)).
  assert (Hfit16u : MODBUS_INT16_UNSIGNED_AB <= data_type <= MODBUS_INT16_UNSIGNED_BA ->
                    forall z, unsigned_range 16 z -> fits data_type (u16 z))
    by (intros Hr z Hrange; exact (conj Hr Hrange)).
  destruct (Z.eqb_spec data_type MODBUS_INT16_SIGNED_AB) as [E | N3].
  { apply (outcome_of_success (fits data_type) _ o _
             (succeeds_member _ (fits data_type) i16 _
                (Hfit16s ltac:(unfold_tags; lia))
                (int16_signed_outcome registers false sf)) Ho).
    apply return_code_ok; unfold_tags; lia. }
  destruct (Z.eqb_spec data_type MODBUS_INT16_SIGNED_BA) as [E | N4].
  { apply (outcome_of_success (fits data_type) _ o _
             (succeeds_member _ (fits data_type) i16 _
                (Hfit16s ltac:(unfold_tags; lia))
                (int16_signed_outcome registers true sf)) Ho).
    apply return_code_ok; unfold_tags; lia. }
  destruct (Z.eqb_spec data_type MODBUS_INT16_UNSIGNED_AB) as [E | N5].
  { apply (outcome_of_success (fits data_type) _ o _
             (succeeds_member _ (fits data_type) u16 _
                (Hfit16u ltac:(unfold_tags; lia))
                (int16_unsigned_outcome registers false sf)) Ho).
    apply return_code_ok; unfold_tags; lia. }
  destruct (Z.eqb_spec data_type MODBUS_INT16_UNSIGNED_BA) as [E | N6].
  { apply (outcome_of_success (fits data_type) _ o _
             (succeeds_member _ (fits data_type) u16 _
                (Hfit16u ltac:(unfold_tags; lia))
                (int16_unsigned_outcome registers true sf)) Ho).
    apply return_code_ok; unfold_tags; lia. }
  destruct (in_range_spec MODBUS_INT32_SIGNED_ABCD MODBUS_INT32_UNSIGNED_CDAB data_type)
    as [R32 | R32].
  { apply (outcome_of_success (fits data_type) _ o _
             (proj1 (int32_outcome registers data_type sf) R32) Ho).
    apply return_code_ok; unfold_tags; lia. }
  destruct (in_range_spec MODBUS_INT64_SIGNED_ABCDEFGH MODBUS_INT64_UNSIGNED_EFGHABCD
              data_type) as [R64 | R64].
  { apply (outcome_of_success (fits data_type) _ o _
             (proj1 (int64_outcome registers data_type sf) R64) Ho).
    apply return_code_ok; unfold_tags; lia. }
  destruct (in_range_spec MODBUS_IEEE_FLOAT32_ABCD MODBUS_IEEE_FLOAT32_BADC data_type)
    as [F32 | F32].
  { apply (outcome_of_success (fits data_type) _ o _
             (succeeds_member _ (fits data_type) f32 _ (fun _ _ => F32)
                (proj1 (float32_outcome registers data_type sf) F32)) Ho).
    apply return_code_ok; unfold_tags; lia. }
  destruct (in_range_spec MODBUS_IEEE_FLOAT64_ABCDEFGH MODBUS_IEEE_FLOAT64_EFGHABCD
              data_type) as [F64 | F64].
  { apply (outcome_of_success (fits data_type) _ o _
             (succeeds_member _ (fits data_type) f64 _ (fun _ _ => F64)
                (proj1 (float64_outcome registers data_type sf) F64)) Ho).
    apply return_code_ok; unfold_tags; lia. }
  injection Ho as <-. cbn [code]. unfold return_code.
  destruct (Z.eqb_spec reg_count 0); [ lia | ].
  destruct (Z.ltb_spec data_type MODBUS_BIT_BOOLEAN),
           (Z.gtb_spec data_type MODBUS_IEEE_FLOAT64_EFGHABCD);
    cbn [orb]; try (split; [ reflexivity | discriminate ]).
  unfold_tags. lia.
Qed.

(** X8.  The return code of [modbus_convert], whenever the call has an
    outcome, follows a four-line decision table: a null pointer gives
    [MODBUS_CONV_ERR_NULL_PTR]; otherwise a zero count gives
    [MODBUS_CONV_ERR_INSUFF_REGS]; otherwise a data type outside the
    enumeration gives [MODBUS_CONV_ERR_INVALID_TYPE]; otherwise the boolean
    type with a bit position above 15 gives [MODBUS_CONV_ERR_INVALID_BIT];
    every other call returns [MODBUS_CONV_OK].  The code
    [MODBUS_CONV_ERR_UNKNOWN] is never returned. *)
Theorem X8_return_code_table
    (registers : option (list Z)) (reg_count data_type bit_pos : Z)
    (scaling_factor : double) (result : out_ptr) (o : outcome modbus_value_t) :
  modbus_convert registers reg_count data_type bit_pos scaling_factor result = Some o ->
  code o = return_code registers reg_count data_type bit_pos result
  /\ code o <> MODBUS_CONV_ERR_UNKNOWN.
Proof.
  intros Ho.
  assert (Hc : code o = return_code registers reg_count data_type bit_pos result).
  { destruct registers as [regs | ], result;
      try (injection Ho as <-; reflexivity).
    exact (proj1 (convert_outcome regs reg_count data_type bit_pos scaling_factor o Ho)). }
  split; [ exact Hc | ]. rewrite Hc. unfold return_code.
  destruct registers, result; try discriminate.
  destruct (reg_count =? 0); [ discriminate | ].
  destruct (_ || _); [ discriminate | ].
  destruct (_ && _); discriminate.
Qed.

Lemma X8_return_code_table_witness :
  modbus_convert (Some [0x0001]) 1 MODBUS_BIT_BOOLEAN 16 double_1_0 Addr
  = fail MODBUS_CONV_ERR_INVALID_BIT
  /\ return_code (Some [0x0001]) 1 MODBUS_BIT_BOOLEAN 16 Addr
     = MODBUS_CONV_ERR_INVALID_BIT.
Proof.
  split; [ reflexivity | ]. symmetry.
  exact (proj1 (X8_return_code_table (Some [0x0001]) 1 MODBUS_BIT_BOOLEAN 16
                  double_1_0 Addr (Returns MODBUS_CONV_ERR_INVALID_BIT None) eq_refl)).
Defined.

(** X9.  Each decoder that takes a data type checks it before it reads a
    register: for a data type outside its family the call returns
    [MODBUS_CONV_ERR_INVALID_TYPE] and stores nothing, whatever the register
    array (even an empty one); for a data type of its family it never
    returns an error code. *)
Theorem X9_decoders_check_the_data_type_first
    (registers : list Z) (data_type : Z) (scaling_factor : double) :
  ((data_type < MODBUS_INT32_SIGNED_ABCD \/ MODBUS_INT32_UNSIGNED_CDAB < data_type ->
    modbus_convert_int32 (Some registers) data_type scaling_factor Addr
    = fail MODBUS_CONV_ERR_INVALID_TYPE)
   /\ (MODBUS_INT32_SIGNED_ABCD <= data_type <= MODBUS_INT32_UNSIGNED_CDAB ->
       forall o, modbus_convert_int32 (Some registers) data_type scaling_factor Addr
                 = Some o -> code o = MODBUS_CONV_OK))
  /\ ((data_type < MODBUS_INT64_SIGNED_ABCDEFGH
       \/ MODBUS_INT64_UNSIGNED_EFGHABCD < data_type ->
       modbus_convert_int64 (Some registers) data_type scaling_factor Addr
       = fail MODBUS_CONV_ERR_INVALID_TYPE)
      /\ (MODBUS_INT64_SIGNED_ABCDEFGH <= data_type <= MODBUS_INT64_UNSIGNED_EFGHABCD ->
          forall o, modbus_convert_int64 (Some registers) data_type scaling_factor Addr
                    = Some o -> code o = MODBUS_CONV_OK))
  /\ ((data_type < MODBUS_IEEE_FLOAT32_ABCD \/ MODBUS_IEEE_FLOAT32_BADC < data_type ->
       modbus_convert_float32 (Some registers) data_type scaling_factor Addr
       = fail MODBUS_CONV_ERR_INVALID_TYPE)
      /\ (MODBUS_IEEE_FLOAT32_ABCD <= data_type <= MODBUS_IEEE_FLOAT32_BADC ->
          forall o, modbus_convert_float32 (Some registers) data_type scaling_factor Addr
                    = Some o -> code o = MODBUS_CONV_OK))
  /\ ((data_type < MODBUS_IEEE_FLOAT64_ABCDEFGH
       \/ MODBUS_IEEE_FLOAT64_EFGHABCD < data_type ->
       modbus_convert_float64 (Some registers) data_type scaling_factor Addr
       = fail MODBUS_CONV_ERR_INVALID_TYPE)
      /\ (MODBUS_IEEE_FLOAT64_ABCDEFGH <= data_type <= MODBUS_IEEE_FLOAT64_EFGHABCD ->
          forall o, modbus_convert_float64 (Some registers) data_type scaling_factor Addr
                    = Some o -> code o = MODBUS_CONV_OK)).
Proof.
  destruct (int32_outcome registers data_type scaling_factor) as [H32 N32].
  destruct (int64_outcome registers data_type scaling_factor) as [H64 N64].
  destruct (float32_outcome registers data_type scaling_factor) as [F32 G32].
  destruct (float64_outcome registers data_type scaling_factor) as [F64 G64].
  split; [ split; [ exact N32 | intros Hr o Ho; exact (proj1 (H32 Hr o Ho)) ] | ].
  split; [ split; [ exact N64 | intros Hr o Ho; exact (proj1 (H64 Hr o Ho)) ] | ].
  split; [ split; [ exact G32 | intros Hr o Ho; exact (proj1 (F32 Hr o Ho)) ] | ].
  split; [ exact G64 | intros Hr o Ho; exact (proj1 (F64 Hr o Ho)) ].
Qed.

(** X10.  Type safety of the result union: when [modbus_convert] returns
    [MODBUS_CONV_OK] it has stored the member of the union that belongs to
    the data type (the [bool] for the boolean type, [i8] for the signed
    8-bit type, and so on), and an integer member holds a value of its C
    type. *)
Theorem X10_success_stores_the_member_of_the_data_type
    (registers : option (list Z)) (reg_count data_type bit_pos : Z)
    (scaling_factor : double) (result : out_ptr) (o : outcome modbus_value_t) :
  modbus_convert registers reg_count data_type bit_pos scaling_factor result = Some o ->
  code o = MODBUS_CONV_OK ->
  exists v, stored o = Some v /\ fits data_type v.
Proof.
  intros Ho Hok. destruct registers as [regs | ], result;
    try (injection Ho as <-; discriminate Hok).
  exact (proj2 (convert_outcome regs reg_count data_type bit_pos scaling_factor o Ho) Hok).
Qed.

Lemma X10_success_stores_the_member_of_the_data_type_witness :
  modbus_convert (Some [0xFEFF]) 1 MODBUS_INT16_SIGNED_BA 0 double_1_0 Addr
  = store_ok (i16 (-2))
  /\ exists v, Some (i16 (-2)) = Some v /\ fits MODBUS_INT16_SIGNED_BA v.
Proof.
  split; [ reflexivity | ].
  exact (X10_success_stores_the_member_of_the_data_type (Some [0xFEFF]) 1
           MODBUS_INT16_SIGNED_BA 0 double_1_0 Addr
           (Returns MODBUS_CONV_OK (Some (i16 (-2)))) eq_refl eq_refl).
Defined.

(** ** The register count *)

Lemma case32_short (p : pattern32) (registers : list Z) :
  (length registers < 2)%nat -> case32 p registers = None.
Proof.
  destruct registers as [ | a [ | b rest ] ]; cbn [length]; intros Hl; try lia;
    destruct p; reflexivity.
Qed.

Lemma case64_short (p : pattern64) (registers : list Z) :
  (length registers < 4)%nat -> case64 p registers = None.
Proof.
  destruct registers as [ | a [ | b [ | c [ | d rest ] ] ] ]; cbn [length];
    intros Hl; try lia; destruct p; reflexivity.
Qed.

(** On the data types of a family [modbus_convert] is the decoder of the
    family. *)
Lemma convert_is_int32 (registers : list Z) (reg_count data_type bit_pos : Z)
    (sf : double) :
  reg_count <> 0 ->
  MODBUS_INT32_SIGNED_ABCD <= data_type <= MODBUS_INT32_UNSIGNED_CDAB ->
  modbus_convert (Some registers) reg_count data_type bit_pos sf Addr
  = modbus_convert_int32 (Some registers) data_type sf Addr.
Proof.
  intros Hc Hr. unfold modbus_convert.
  destruct (Z.eqb_spec reg_count 0); [ lia | ].
  destruct (in_range_spec MODBUS_INT32_SIGNED_ABCD MODBUS_INT32_UNSIGNED_CDAB data_type);
    [ | lia ].
  unfold_tags.
  repeat match goal with
         | |- context [data_type =? ?k] => destruct (Z.eqb_spec data_type k); [ lia | ]
         end.
  reflexivity.
Qed.

Lemma convert_is_int64 (registers : list Z) (reg_count data_type bit_pos : Z)
    (sf : double) :
  reg_count <> 0 ->
  MODBUS_INT64_SIGNED_ABCDEFGH <= data_type <= MODBUS_INT64_UNSIGNED_EFGHABCD ->
  modbus_convert (Some registers) reg_count data_type bit_pos sf Addr
  = modbus_convert_int64 (Some registers) data_type sf Addr.
Proof.
  intros Hc Hr. unfold modbus_convert.
  destruct (Z.eqb_spec reg_count 0); [ lia | ].
  destruct (in_range_spec MODBUS_INT32_SIGNED_ABCD MODBUS_INT32_UNSIGNED_CDAB data_type);
    [ unfold_tags; lia | ].
  destruct (in_range_spec MODBUS_INT64_SIGNED_ABCDEFGH MODBUS_INT64_UNSIGNED_EFGHABCD
              data_type); [ | lia ].
  unfold_tags.
  repeat match goal with
         | |- context [data_type =? ?k] => destruct (Z.eqb_spec data_type k); [ lia | ]
         end.
  reflexivity.
Qed.

Lemma convert_is_float32 (registers : list Z) (reg_count data_type bit_pos : Z)
    (sf : double) :
  reg_count <> 0 ->
  MODBUS_IEEE_FLOAT32_ABCD <= data_type <= MODBUS_IEEE_FLOAT32_BADC ->
  modbus_convert (Some registers) reg_count data_type bit_pos sf Addr
  = member f32 (modbus_convert_float32 (Some registers) data_type sf Addr).
Proof.
  intros Hc Hr. unfold modbus_convert.
  destruct (Z.eqb_spec reg_count 0); [ lia | ].
  destruct (in_range_spec MODBUS_INT32_SIGNED_ABCD MODBUS_INT32_UNSIGNED_CDAB data_type);
    [ unfold_tags; lia | ].
  destruct (in_range_spec MODBUS_INT64_SIGNED_ABCDEFGH MODBUS_INT64_UNSIGNED_EFGHABCD
              data_type); [ unfold_tags; lia | ].
  destruct (in_range_spec MODBUS_IEEE_FLOAT32_ABCD MODBUS_IEEE_FLOAT32_BADC data_type);
    [ | lia ].
  unfold_tags.
  repeat match goal with
         | |- context [data_type =? ?k] => destruct (Z.eqb_spec data_type k); [ lia | ]
         end.
  reflexivity.
Qed.

Lemma convert_is_float64 (registers : list Z) (reg_count data_type bit_pos : Z)
    (sf : double) :
  reg_count <> 0 ->
  MODBUS_IEEE_FLOAT64_ABCDEFGH <= data_type <= MODBUS_IEEE_FLOAT64_EFGHABCD ->
  modbus_convert (Some registers) reg_count data_type bit_pos sf Addr
  = member f64 (modbus_convert_float64 (Some registers) data_type sf Addr).
Proof.
  intros Hc Hr. unfold modbus_convert.
  destruct (Z.eqb_spec reg_count 0); [ lia | ].
  destruct (in_range_spec MODBUS_INT32_SIGNED_ABCD MODBUS_INT32_UNSIGNED_CDAB data_type);
    [ unfold_tags; lia | ].
  destruct (in_range_spec MODBUS_INT64_SIGNED_ABCDEFGH MODBUS_INT64_UNSIGNED_EFGHABCD
              data_type); [ unfold_tags; lia | ].
  destruct (in_range_spec MODBUS_IEEE_FLOAT32_ABCD MODBUS_IEEE_FLOAT32_BADC data_type);
    [ unfold_tags; lia | ].
  destruct (in_range_spec MODBUS_IEEE_FLOAT64_ABCDEFGH MODBUS_IEEE_FLOAT64_EFGHABCD
              data_type); [ | lia ].
  unfold_tags.
  repeat match goal with
         | |- context [data_type =? ?k] => destruct (Z.eqb_spec data_type k); [ lia | ]
         end.
  reflexivity.
Qed.

(** X11.  [modbus_convert] only compares the register count with zero: any
    two nonzero counts give the same outcome, so the count never guards the
    registers the decoders read.  A 32-bit data type on an array of fewer
    than two registers, and a 64-bit data type on an array of fewer than
    four, read past the end of the array whatever nonzero count is passed:
    the call has no defined outcome. *)
Theorem X11_register_count_is_only_compared_with_zero
    (registers : list Z) (reg_count reg_count' data_type bit_pos : Z)
    (scaling_factor : double) :
  reg_count <> 0 -> reg_count' <> 0 ->
  modbus_convert (Some registers) reg_count data_type bit_pos scaling_factor Addr
  = modbus_convert (Some registers) reg_count' data_type bit_pos scaling_factor Addr
  /\ ((length registers < 2)%nat ->
      MODBUS_INT32_SIGNED_ABCD <= data_type <= MODBUS_INT32_UNSIGNED_CDAB
      \/ MODBUS_IEEE_FLOAT32_ABCD <= data_type <= MODBUS_IEEE_FLOAT32_BADC ->
      modbus_convert (Some registers) reg_count data_type bit_pos scaling_factor Addr
      = None)
  /\ ((length registers < 4)%nat ->
      MODBUS_INT64_SIGNED_ABCDEFGH <= data_type <= MODBUS_INT64_UNSIGNED_EFGHABCD
      \/ MODBUS_IEEE_FLOAT64_ABCDEFGH <= data_type <= MODBUS_IEEE_FLOAT64_EFGHABCD ->
      modbus_convert (Some registers) reg_count data_type bit_pos scaling_factor Addr
      = None).
Proof.
  intros Hc Hc'. split.
  { unfold modbus_convert.
    destruct (Z.eqb_spec reg_count 0), (Z.eqb_spec reg_count' 0); try lia.
    reflexivity. }
  split.
  - intros Hl [Hr | Hr].
    + rewrite convert_is_int32 by trivial.
      destruct (int32_tags data_type Hr) as [p [[-> _] | [-> _]]].
      * now rewrite int32_signed_switch, case32_short.
      * now rewrite int32_unsigned_switch, case32_short.
    + rewrite convert_is_float32 by trivial.
      destruct (float32_tags data_type Hr) as [p ->].
      now rewrite float32_switch, case32_short.
  - intros Hl [Hr | Hr].
    + rewrite convert_is_int64 by trivial.
      destruct (int64_tags data_type Hr) as [p [[-> _] | [-> _]]].
      * now rewrite int64_signed_switch, case64_short.
      * now rewrite int64_unsigned_switch, case64_short.
    + rewrite convert_is_float64 by trivial.
      destruct (float64_tags data_type Hr) as [p ->].
      now rewrite float64_switch, case64_short.
Qed.

Lemma X11_register_count_is_only_compared_with_zero_witness :
  modbus_convert (Some [0x1234]) 1 MODBUS_INT32_UNSIGNED_ABCD 0 double_1_0 Addr
  = modbus_convert (Some [0x1234]) 2 MODBUS_INT32_UNSIGNED_ABCD 0 double_1_0 Addr
  /\ modbus_convert (Some [0x1234]) 2 MODBUS_INT32_UNSIGNED_ABCD 0 double_1_0 Addr
     = None
  /\ modbus_convert (Some [0x1234; 0x5678]) 4 MODBUS_IEEE_FLOAT64_ABCDEFGH 0
       double_1_0 Addr = None.
Proof.
  assert (H1 : 1 <> 0) by lia. assert (H2 : 2 <> 0) by lia. assert (H4 : 4 <> 0) by lia.
  destruct (X11_register_count_is_only_compared_with_zero [0x1234] 2 1
              MODBUS_INT32_UNSIGNED_ABCD 0 double_1_0 H2 H1) as (Hsame & Hshort & _).
  destruct (X11_register_count_is_only_compared_with_zero [0x1234; 0x5678] 4 1
              MODBUS_IEEE_FLOAT64_ABCDEFGH 0 double_1_0 H4 H1) as (_ & _ & Hshort').
  split; [ symmetry; exact Hsame | split ].
  - apply Hshort; [ cbn [length]; lia | left; unfold_tags; lia ].
  - apply Hshort'; [ cbn [length]; lia | right; unfold_tags; lia ].
Defined.

(** ** The byte layouts of the 64-bit patterns *)

Lemma case64_frame (p : pattern64) (r0 r1 r2 r3 : Z) (rest : list Z) :
  case64 p (r0 :: r1 :: r2 :: r3 :: rest) = case64 p [r0; r1; r2; r3].
Proof. destruct p; reflexivity. Qed.

Lemma reordered_bytes_layout (p : pattern64) (r0 r1 r2 r3 : Z) :
  is_u16 r0 -> is_u16 r1 -> is_u16 r2 -> is_u16 r3 ->
  reordered_bytes (table64 p) [r0; r1; r2; r3]
  = reordered_bytes (table64 (layout64 p)) [r0; r1; r2; r3].
Proof.
  intros U0 U1 U2 U3.
  destruct (byte_swapped_hi_lo r0 U0) as [Hh0 Hl0].
  destruct (byte_swapped_hi_lo r1 U1) as [Hh1 Hl1].
  destruct (byte_swapped_hi_lo r2 U2) as [Hh2 Hl2].
  destruct (byte_swapped_hi_lo r3 U3) as [Hh3 Hl3].
  destruct p; cbv - [byte_swapped Z.div Z.modulo];
    rewrite ?Hh0, ?Hl0, ?Hh1, ?Hl1, ?Hh2, ?Hl2, ?Hh3, ?Hl3; reflexivity.
Qed.

(** X12.  The eight 64-bit patterns have four byte layouts only.  On any
    array of at least four registers DCBAHGFE yields the bytes of ABCDEFGH
    (the registers in order); HGFEDCBA and GHEFCDAB yield the bytes of
    BADCFEHG (the registers in order, the bytes of each swapped); EFGHABCD
    yields the bytes of CDABGHEF (the registers exchanged in pairs); and
    FEHGBADC yields the registers exchanged in pairs with the bytes of each
    swapped.  The signed, unsigned and float64 decoders of two patterns with
    one layout give the same outcome. *)
Theorem X12_eight_patterns_four_layouts
    (p : pattern64) (r0 r1 r2 r3 : Z) (rest : list Z) (scaling_factor : double) :
  is_u16 r0 -> is_u16 r1 -> is_u16 r2 -> is_u16 r3 ->
  let registers := r0 :: r1 :: r2 :: r3 :: rest in
  case64 p registers = case64 (layout64 p) registers
  /\ modbus_convert_int64 (Some registers) (int64_signed p) scaling_factor Addr
     = modbus_convert_int64 (Some registers) (int64_signed (layout64 p))
         scaling_factor Addr
  /\ modbus_convert_int64 (Some registers) (int64_unsigned p) scaling_factor Addr
     = modbus_convert_int64 (Some registers) (int64_unsigned (layout64 p))
         scaling_factor Addr
  /\ modbus_convert_float64 (Some registers) (float64_tag p) scaling_factor Addr
     = modbus_convert_float64 (Some registers) (float64_tag (layout64 p))
         scaling_factor Addr
  /\ case64 ABCDEFGH registers = Some (concat (map word_be_bytes [r0; r1; r2; r3]))
  /\ case64 BADCFEHG registers
     = Some (concat (map word_be_bytes (map byte_swapped [r0; r1; r2; r3])))
  /\ case64 CDABGHEF registers = Some (concat (map word_be_bytes [r1; r0; r3; r2]))
  /\ case64 FEHGBADC registers
     = Some (concat (map word_be_bytes (map byte_swapped [r1; r0; r3; r2]))).
Proof.
  intros U0 U1 U2 U3 registers.
  assert (Hcase : case64 p registers = case64 (layout64 p) registers).
  { unfold registers. rewrite (case64_frame p), (case64_frame (layout64 p)).
    rewrite (case64_reordered r0 r1 r2 r3 U0 U1 U2 U3 p).
    rewrite (case64_reordered r0 r1 r2 r3 U0 U1 U2 U3 (layout64 p)).
    f_equal. now apply reordered_bytes_layout. }
  split; [ exact Hcase | ].
  split; [ now rewrite !int64_signed_switch, Hcase | ].
  split; [ now rewrite !int64_unsigned_switch, Hcase | ].
  split; [ now rewrite !float64_switch, Hcase | ].
  destruct (byte_swapped_hi_lo r0 U0) as [Hh0 Hl0].
  destruct (byte_swapped_hi_lo r1 U1) as [Hh1 Hl1].
  destruct (byte_swapped_hi_lo r2 U2) as [Hh2 Hl2].
  destruct (byte_swapped_hi_lo r3 U3) as [Hh3 Hl3].
  unfold registers.
  rewrite (case64_frame ABCDEFGH), (case64_frame BADCFEHG), (case64_frame CDABGHEF),
    (case64_frame FEHGBADC).
  rewrite (case64_reordered r0 r1 r2 r3 U0 U1 U2 U3 ABCDEFGH),
    (case64_reordered r0 r1 r2 r3 U0 U1 U2 U3 BADCFEHG),
    (case64_reordered r0 r1 r2 r3 U0 U1 U2 U3 CDABGHEF),
    (case64_reordered r0 r1 r2 r3 U0 U1 U2 U3 FEHGBADC).
  repeat split; f_equal; cbv - [byte_swapped Z.div Z.modulo];
    rewrite ?Hh0, ?Hl0, ?Hh1, ?Hl1, ?Hh2, ?Hl2, ?Hh3, ?Hl3; reflexivity.
Qed.

Lemma X12_eight_patterns_four_layouts_witness :
  case64 EFGHABCD [0x4142; 0x4344; 0x4546; 0x4748]
  = case64 CDABGHEF [0x4142; 0x4344; 0x4546; 0x4748]
  /\ case64 CDABGHEF [0x4142; 0x4344; 0x4546; 0x4748]
     = Some (concat (map word_be_bytes [0x4344; 0x4142; 0x4748; 0x4546])).
Proof.
  assert (H0 : is_u16 0x4142) by (unfold is_u16; lia).
  assert (H1 : is_u16 0x4344) by (unfold is_u16; lia).
  assert (H2 : is_u16 0x4546) by (unfold is_u16; lia).
  assert (H3 : is_u16 0x4748) by (unfold is_u16; lia).
  pose proof (X12_eight_patterns_four_layouts EFGHABCD 0x4142 0x4344 0x4546 0x4748 []
                double_1_0 H0 H1 H2 H3) as H.
  split; [ exact (proj1 H) | ].
  exact (proj1 (proj2 (proj2 (proj2 (proj2 (proj2 (proj2 H))))))).
Defined.

(** ** The floating-point decoders *)










(** ** Scaling factors that are not finite *)





(** ** Error descriptions *)

Section ErrorStrings.

Import String.

Lemma error_string_cases (error_code : Z) :
  (error_code = MODBUS_CONV_OK
   /\ modbus_conv_get_error_string error_code = "Success"%string)
  \/ (error_code = MODBUS_CONV_ERR_NULL_PTR
      /\ modbus_conv_get_error_string error_code = "Null pointer error"%string)
  \/ (error_code = MODBUS_CONV_ERR_INVALID_TYPE
      /\ modbus_conv_get_error_string error_code = "Invalid data type"%string)
  \/ (error_code = MODBUS_CONV_ERR_INVALID_BIT
      /\ modbus_conv_get_error_string error_code
         = "Invalid bit position (must be 0-15)"%string)
  \/ (error_code = MODBUS_CONV_ERR_INSUFF_REGS
      /\ modbus_conv_get_error_string error_code
         = "Insufficient registers for conversion"%string)
  \/ (error_code = MODBUS_CONV_ERR_UNKNOWN
      /\ modbus_conv_get_error_string error_code = "Unknown error"%string)
  \/ ((error_code < MODBUS_CONV_ERR_UNKNOWN \/ MODBUS_CONV_OK < error_code)
      /\ modbus_conv_get_error_string error_code = "Unrecognized error code"%string).
Proof.
  unfold MODBUS_CONV_OK, MODBUS_CONV_ERR_NULL_PTR, MODBUS_CONV_ERR_INVALID_TYPE,
    MODBUS_CONV_ERR_INVALID_BIT, MODBUS_CONV_ERR_INSUFF_REGS, MODBUS_CONV_ERR_UNKNOWN.
  assert (Hc : error_code = 0 \/ error_code = -1 \/ error_code = -2 \/ error_code = -3
            \/ error_code = -4 \/ error_code = -5
            \/ (error_code < -5 \/ 0 < error_code)) by lia.
  destruct Hc as [-> | [-> | [-> | [-> | [-> | [-> | Hout]]]]]]; auto 8.
  do 6 right. split; [ exact Hout | ].
  unfold modbus_conv_get_error_string. rewrite switch_default; [ reflexivity | ].
  unfold MODBUS_CONV_OK, MODBUS_CONV_ERR_NULL_PTR, MODBUS_CONV_ERR_INVALID_TYPE,
    MODBUS_CONV_ERR_INVALID_BIT, MODBUS_CONV_ERR_INSUFF_REGS, MODBUS_CONV_ERR_UNKNOWN.
  repeat first [ apply Forall_nil_2 | apply Forall_cons_2 | cbn [fst]; lia ].
Qed.

(** X16.  [modbus_conv_get_error_string] describes each of the six codes
    of the header by a string of its own, so equal descriptions of two codes
    of which one is a code of the header mean equal codes; every other
    number, and no code of the header, is described as "Unrecognized error
    code".  Whatever [modbus_convert] returns is described by one of the
    five strings for success, a null pointer, an invalid data type, an
    invalid bit position and insufficient registers. *)
Theorem X16_error_descriptions (c c' : Z) :
  (MODBUS_CONV_ERR_UNKNOWN <= c <= MODBUS_CONV_OK ->
   modbus_conv_get_error_string c = modbus_conv_get_error_string c' -> c = c')
  /\ (modbus_conv_get_error_string c = "Unrecognized error code"%string
      <-> c < MODBUS_CONV_ERR_UNKNOWN \/ MODBUS_CONV_OK < c)
  /\ (forall (registers : option (list Z)) (reg_count data_type bit_pos : Z)
             (scaling_factor : double) (result : out_ptr)
             (o : outcome modbus_value_t),
        modbus_convert registers reg_count data_type bit_pos scaling_factor result
        = Some o ->
        In (modbus_conv_get_error_string (code o))
           [ "Success"%string; "Null pointer error"%string;
             "Invalid data type"%string;
             "Invalid bit position (must be 0-15)"%string;
             "Insufficient registers for conversion"%string ]).
Proof.
  split; [ | split ].
  - intros Hr Heq.
    destruct (error_string_cases c) as [H | [H | [H | [H | [H | [H | H]]]]]];
      destruct H as [Hc Hs]; rewrite Hs in Heq;
      destruct (error_string_cases c') as [H | [H | [H | [H | [H | [H | H]]]]]];
      destruct H as [Hc' Hs']; rewrite Hs' in Heq;
      try discriminate Heq; try congruence; lia.
  - split.
    + intros Hs.
      destruct (error_string_cases c) as [H | [H | [H | [H | [H | [H | H]]]]]];
        destruct H as [Hc Hs']; rewrite Hs' in Hs; try discriminate Hs; exact Hc.
    + intros Hout.
      destruct (error_string_cases c) as [H | [H | [H | [H | [H | [H | H]]]]]];
        destruct H as [Hc Hs]; try exact Hs;
        unfold MODBUS_CONV_OK, MODBUS_CONV_ERR_NULL_PTR, MODBUS_CONV_ERR_INVALID_TYPE,
          MODBUS_CONV_ERR_INVALID_BIT, MODBUS_CONV_ERR_INSUFF_REGS,
          MODBUS_CONV_ERR_UNKNOWN in *; lia.
  - intros registers reg_count data_type bit_pos scaling_factor result o Ho.
    assert (Hc : code o = return_code registers reg_count data_type bit_pos result).
    { destruct registers as [regs | ], result;
        try (injection Ho as <-; reflexivity).
      exact (proj1 (convert_outcome regs reg_count data_type bit_pos scaling_factor
                      o Ho)). }
    rewrite Hc. unfold return_code.
    destruct registers, result; try (cbn; auto 8).
    destruct (reg_count =? 0); [ cbn; auto 8 | ].
    destruct (_ || _); [ cbn; auto 8 | ].
    destruct (_ && _); cbn; auto 8.
Qed.

End ErrorStrings.

(** ** Scaling by 2.0 *)






